(** * Relative-placement primitives of the cane and rail machines

    A shallow embedding of the helper functions of
    [src/agent/library/cane.js] and [src/agent/library/rail.js]:
    equipItem, placeOnBlock (both versions), pourWaterInHole, setOrigin,
    walkTo, acquireItems, toggleBlock and dig, with the properties of
    their coordinate resolution, retry policy and fault handling.  The
    helpers that the two files share are textually the same in both and
    are embedded once.  jumpForDuration (a wall-clock loop), walkNorth
    and the two build scripts makeCaneMachine and makeRailMachine follow
    in a second layer, over the capabilities they use beyond the bridge.

    Modelling conventions.
    - JavaScript numbers are exact rationals ([Qc]); rounding, NaN and
      infinities of IEEE doubles are not modelled.
    - The mineflayer [bot] object and the imported helpers [log], [wait],
      [goToPosition], [world.getInventoryCounts] are not part of the two
      files: they are a parameter of the development (record [Bridge]),
      and every theorem holds for every bridge.
    - An async function is a computation in the monad [M]: it threads the
      bot (environment + [bot.origin]), emits the ordered list of bridge
      calls and log lines it performs, and completes either normally with
      a value or abruptly with a thrown error.
    - [Sim] is one concrete bridge, a small voxel world, on which the
      helpers are run. *)

From Stdlib Require Import ZArith QArith Qcanon Qround String List Bool Lia.
From Stdlib Require Import DecimalString.
Import ListNotations.

Open Scope string_scope.
Open Scope list_scope.
Open Scope Z_scope.

(** ** JavaScript values *)

Definition number := Qc.

(** An integer literal as a JavaScript number. *)
Definition num (n : Z) : number := Q2Qc (inject_Z n).

(** [Math.floor]. *)
Definition floor (q : number) : number := num (Qfloor q).

(** What an async helper resolves to: [true], [false], or [undefined]
    when the function body ends without a [return] value. *)
Inductive value : Type :=
| VBool (b : bool)
| VUndefined.

(** A thrown [Error]; [e.message] may be missing. *)
Record Error : Type := mkError { message : option string }.

(** [haystack.includes(needle)]. *)
Fixpoint includes (needle haystack : string) : bool :=
  if String.prefix needle haystack then true
  else match haystack with
       | EmptyString => false
       | String _ rest => includes needle rest
       end.

(** Template interpolation of an integer. *)
Definition string_of_Z (n : Z) : string := NilZero.string_of_int (Z.to_int n).

(** ** The vec3 package *)

Module Vec3.

Record t : Type := mk { x : number; y : number; z : number }.

Definition plus (a b : t) : t :=
  mk (x a + x b)%Qc (y a + y b)%Qc (z a + z b)%Qc.

(** [add] mutates its receiver and returns it; on a fresh [clone] this
    is [plus]. *)
Definition add (a b : t) : t := plus a b.

Definition scaled (a : t) (k : number) : t :=
  mk (x a * k)%Qc (y a * k)%Qc (z a * k)%Qc.

Definition floored (a : t) : t := mk (floor (x a)) (floor (y a)) (floor (z a)).

Definition clone (a : t) : t := mk (x a) (y a) (z a).

End Vec3.

(** An offset triple [[right, up, forward]]. *)
Definition coords : Type := (number * number * number)%type.

(** ** Objects handed over by the bot *)

Record Block : Type := mkBlock { block_name : string; block_position : Vec3.t }.

Record Item : Type := mkItem { item_name : string; item_count : Z }.

(** [bot.origin = { position, yaw }]. *)
Record Origin : Type := mkOrigin { position : Vec3.t; yaw : number }.

(** ** Log lines

    One constructor per template string of the source, carrying the
    interpolated values; number formatting ([toFixed]) is not modelled. *)
Inductive LogMsg : Type :=
| LEquipped (itemName hand : string)
| LEquipError (itemName hand : string) (e : Error)
| LNoItem (itemName : string)
| LOriginNotSetCurrentCurrent
| LOriginNotSet
| LOriginSet (p : Vec3.t) (yw : number)
| LNoSupportingBlock (absX absY absZ : number) (itemName : string)
| LCannotEquip (itemName : string)
| LInvalidFacing (facingDirection : string)
| LLooking (facingDirection : string)
| LTargetOccupied (targetName : string)
| LPlaced (itemName : string) (p dir : Vec3.t)
| LPlacedNoBlockUpdate (itemName : string) (msg : string)
| LAttemptFailed (attempt : Z) (itemName : string) (msg : option string)
| LPouring (dx dy dz : number)
| LCannotEquipWaterBucket
| LEquippedWaterBucket
| LLookingAtTarget (p : Vec3.t)
| LPoured
| LPourError (e : Error)
| LGoing (dx dy dz : number) (target : Vec3.t)
| LChecking
| LGiving (currentAmount : Z) (itemName : string) (requiredAmount amountToGive : Z)
| LEnough (itemName : string)
| LFinishedAcquiring
| LToggleAttempt (blockType : string) (x y z : number)
| LActivated (blockType : string) (p : Vec3.t)
| LActivateError (p : Vec3.t) (msg : option string)
| LToggleNotFound (blockType : string) (x y z : number) (p : Vec3.t) (found : string)
| LDigStart
| LDigging (rel_x rel_y rel_z : number) (p : Vec3.t)
| LCouldNotDig (p : Vec3.t) (msg : option string)
| LCannotDig (p : Vec3.t) (found : string).

(** ** Observable events: every bridge call, in order, with its outcome
    ([None] = resolved, [Some e] = threw [e]). *)
Inductive Event : Type :=
| Log (m : LogMsg)
| CallBlockAt (p : Vec3.t)
| CallFindInventoryItem (itemName : string)
| CallGetInventoryCounts
| CallCanDigBlock (b : Block)
| CallEquip (it : Item) (hand : string) (r : option Error)
| CallPlaceBlock (b : Block) (dir : Vec3.t) (r : option Error)
| CallActivateBlock (b : Block) (r : option Error)
| CallActivateItem (r : option Error)
| CallDig (b : Block) (r : option Error)
| CallLookAt (p : Vec3.t)
| CallChat (text : string)
| CallWait (ms : Z)
| CallGoToPosition (gx gy gz : number) (r : Error + bool).

(** ** The capability bridge

    The mineflayer bot and the imported helpers, as the two files use
    them.  Calls that the bridge's interface gives a success/fail outcome
    (equip, placeBlock, activateBlock, activateItem, dig, goToPosition)
    may throw; look-ups, [lookAt], [chat] and [wait] cannot. *)
Record Bridge (W : Type) : Type := mkBridge {
  get_entity_position : W -> Vec3.t;
  get_entity_yaw : W -> number;
  get_entity_height : W -> number;
  get_blockAt : W -> Vec3.t -> option Block;
  get_findInventoryItem : W -> string -> option Item;
  get_inventoryCounts : W -> string -> option Z;
  get_canDigBlock : W -> Block -> bool;
  do_equip : W -> Item -> string -> W * option Error;
  do_placeBlock : W -> Block -> Vec3.t -> W * option Error;
  do_activateBlock : W -> Block -> W * option Error;
  do_activateItem : W -> W * option Error;
  do_dig : W -> Block -> W * option Error;
  do_lookAt : W -> Vec3.t -> W;
  do_chat : W -> string -> W;
  do_wait : W -> Z -> W;
  do_goToPosition : W -> number -> number -> number -> W * (Error + bool)
}.

Arguments get_entity_position {W}.
Arguments get_entity_yaw {W}.
Arguments get_entity_height {W}.
Arguments get_blockAt {W}.
Arguments get_findInventoryItem {W}.
Arguments get_inventoryCounts {W}.
Arguments get_canDigBlock {W}.
Arguments do_equip {W}.
Arguments do_placeBlock {W}.
Arguments do_activateBlock {W}.
Arguments do_activateItem {W}.
Arguments do_dig {W}.
Arguments do_lookAt {W}.
Arguments do_chat {W}.
Arguments do_wait {W}.
Arguments do_goToPosition {W}.

(** The bot as the helpers see it: the environment behind the bridge and
    the [origin] property the helpers attach to it. *)
Record Bot (W : Type) : Type := mkBot { world : W; origin : option Origin }.

Arguments mkBot {W}.
Arguments world {W}.
Arguments origin {W}.

(** ** The monad of async helpers *)

Inductive Completion (A : Type) : Type :=
| Normal (a : A)
| Abrupt (e : Error).

Arguments Normal {A}.
Arguments Abrupt {A}.

Definition M (W A : Type) : Type := Bot W -> Completion A * Bot W * list Event.

Definition ret {W A} (a : A) : M W A := fun s => (Normal a, s, []).

Definition bind {W A B} (m : M W A) (f : A -> M W B) : M W B :=
  fun s =>
    match m s with
    | (Normal a, s1, t1) => let '(r, s2, t2) := f a s1 in (r, s2, t1 ++ t2)
    | (Abrupt e, s1, t1) => (Abrupt e, s1, t1)
    end.

(** [try { m } catch (e) { h e }]. *)
Definition try_catch {W A} (m : M W A) (h : Error -> M W A) : M W A :=
  fun s =>
    match m s with
    | (Normal a, s1, t1) => (Normal a, s1, t1)
    | (Abrupt e, s1, t1) => let '(r, s2, t2) := h e s1 in (r, s2, t1 ++ t2)
    end.

Declare Scope js_scope.
Delimit Scope js_scope with js.
Notation "x <- m ;; k" := (bind m (fun x => k))
  (at level 61, m at next level, right associativity) : js_scope.
Notation "m ;; k" := (bind m (fun _ => k))
  (at level 61, right associativity) : js_scope.
Open Scope js_scope.

(** Projections of a run. *)
Definition result_of {W A} (r : Completion A * Bot W * list Event) : Completion A :=
  fst (fst r).
Definition bot_of {W A} (r : Completion A * Bot W * list Event) : Bot W :=
  snd (fst r).
Definition events_of {W A} (r : Completion A * Bot W * list Event) : list Event :=
  snd r.

(** ** The helpers of cane.js and rail.js *)

Section Helpers.

Context {W : Type} (B : Bridge W).

(** *** Primitive steps *)

Definition emit (e : Event) : M W unit := fun s => (Normal tt, s, [e]).

(** [log(bot, msg)]. *)
Definition log (m : LogMsg) : M W unit := emit (Log m).

(** Reading and writing [bot.origin]. *)
Definition bot_origin : M W (option Origin) := fun s => (Normal (origin s), s, []).

Definition set_bot_origin (o : Origin) : M W unit :=
  fun s => (Normal tt, mkBot (world s) (Some o), []).

(** [bot.origin.position] and [bot.origin.yaw]: a property read on
    [undefined] throws a TypeError. *)
Definition type_error : Error :=
  mkError (Some "Cannot read properties of undefined").

Definition origin_position : M W Vec3.t :=
  fun s => match origin s with
           | Some o => (Normal (position o), s, [])
           | None => (Abrupt type_error, s, [])
           end.

Definition origin_yaw : M W number :=
  fun s => match origin s with
           | Some o => (Normal (yaw o), s, [])
           | None => (Abrupt type_error, s, [])
           end.

Definition entity_position : M W Vec3.t :=
  fun s => (Normal (get_entity_position B (world s)), s, []).

Definition entity_yaw : M W number :=
  fun s => (Normal (get_entity_yaw B (world s)), s, []).

Definition entity_height : M W number :=
  fun s => (Normal (get_entity_height B (world s)), s, []).

Definition bot_blockAt (p : Vec3.t) : M W (option Block) :=
  fun s => (Normal (get_blockAt B (world s) p), s, [CallBlockAt p]).

Definition bot_findInventoryItem (itemName : string) : M W (option Item) :=
  fun s => (Normal (get_findInventoryItem B (world s) itemName), s,
            [CallFindInventoryItem itemName]).

Definition world_getInventoryCounts : M W (string -> option Z) :=
  fun s => (Normal (get_inventoryCounts B (world s)), s, [CallGetInventoryCounts]).

Definition bot_canDigBlock (b : Block) : M W bool :=
  fun s => (Normal (get_canDigBlock B (world s) b), s, [CallCanDigBlock b]).

(** A call that may throw: the environment moves on either way. *)
Definition fallible (step : W -> W * option Error) (ev : option Error -> Event)
  : M W unit :=
  fun s =>
    let '(w', r) := step (world s) in
    (match r with None => Normal tt | Some e => Abrupt e end,
     mkBot w' (origin s), [ev r]).

Definition bot_equip (it : Item) (hand : string) : M W unit :=
  fallible (fun w => do_equip B w it hand) (CallEquip it hand).

Definition bot_placeBlock (b : Block) (dir : Vec3.t) : M W unit :=
  fallible (fun w => do_placeBlock B w b dir) (CallPlaceBlock b dir).

Definition bot_activateBlock (b : Block) : M W unit :=
  fallible (fun w => do_activateBlock B w b) (CallActivateBlock b).

Definition bot_activateItem : M W unit :=
  fallible (fun w => do_activateItem B w) CallActivateItem.

Definition bot_dig (b : Block) : M W unit :=
  fallible (fun w => do_dig B w b) (CallDig b).

Definition bot_lookAt (p : Vec3.t) : M W unit :=
  fun s => (Normal tt, mkBot (do_lookAt B (world s) p) (origin s), [CallLookAt p]).

Definition bot_chat (text : string) : M W unit :=
  fun s => (Normal tt, mkBot (do_chat B (world s) text) (origin s), [CallChat text]).

Definition wait (ms : Z) : M W unit :=
  fun s => (Normal tt, mkBot (do_wait B (world s) ms) (origin s), [CallWait ms]).

Definition goToPosition (gx gy gz : number) : M W value :=
  fun s =>
    let '(w', r) := do_goToPosition B (world s) gx gy gz in
    (match r with inr b => Normal (VBool b) | inl e => Abrupt e end,
     mkBot w' (origin s), [CallGoToPosition gx gy gz r]).

(** [for (const a of l) { body a }] and [for (const k in obj)]: the
    body runs on every element in order; a throw leaves the loop. *)
Fixpoint for_each {A} (body : A -> M W unit) (l : list A) : M W unit :=
  match l with
  | [] => ret tt
  | a :: rest => body a ;; for_each body rest
  end.

(** [if (c) { m }] without an else branch. *)
Definition when (c : bool) (m : M W unit) : M W unit :=
  if c then m else ret tt.

(** Truthiness of the values the helpers test. *)
Definition truthy (v : value) : bool :=
  match v with VBool b => b | VUndefined => false end.

Definition is_object {A} (o : option A) : bool :=
  match o with Some _ => true | None => false end.

Definition truthy_string (s : string) : bool :=
  match s with EmptyString => false | _ => true end.

(** *** equipItem (cane.js 6-21, rail.js 6-21) *)

Definition equipItem (itemName : string) (hand : string) : M W value :=
  item <- bot_findInventoryItem itemName ;;
  match item with
  | Some item =>
      try_catch
        (bot_equip item hand ;;
         log (LEquipped itemName hand) ;;
         ret (VBool true))
        (fun e =>
           log (LEquipError itemName hand e) ;;
           ret (VBool false))
  | None =>
      log (LNoItem itemName) ;;
      ret (VBool false)
  end.

(** *** setOrigin (cane.js 116-127, rail.js 136-147) *)

Definition setOrigin : M W value :=
  p <- entity_position ;;
  yw <- entity_yaw ;;
  set_bot_origin (mkOrigin (Vec3.clone p) yw) ;;
  o <- bot_origin ;;
  match o with
  | Some o => log (LOriginSet (position o) (yaw o)) ;; ret (VBool true)
  | None => fun s => (Abrupt type_error, s, [])
  end.

(** The guard every helper starts with:
    [if (!bot.origin) { log(...); await setOrigin(bot); }]. *)
Definition ensure_origin (notice : LogMsg) : M W unit :=
  o <- bot_origin ;;
  when (negb (is_object o)) (log notice ;; _ <- setOrigin ;; ret tt).

(** *** placeOnBlock *)

Definition maxRetries : nat := 3.
Definition skipAirCheck : bool := true.

(** [e.message && e.message.includes("blockUpdate")]. *)
Definition benign (e : Error) : bool :=
  match message e with
  | Some m => truthy_string m && includes "blockUpdate" m
  | None => false
  end.

(** The retry loop [for (let retry = 0; retry < maxRetries; retry++)]:
    [remaining] counts the iterations left, [retry] is the loop
    variable.  An iteration either returns from the function
    ([Some v]) or falls through to the next one ([None]). *)
Definition place_attempt (itemName : string) (block : Block) (directionVec : Vec3.t)
           (retry : Z) : M W (option value) :=
  try_catch
    (bot_placeBlock block directionVec ;;
     log (LPlaced itemName (block_position block) directionVec) ;;
     ret (Some (VBool true)))
    (fun e =>
       if benign e then
         log (LPlacedNoBlockUpdate itemName
                (match message e with Some m => m | None => EmptyString end)) ;;
         ret (Some (VBool true))
       else
         log (LAttemptFailed (retry + 1) itemName (message e)) ;;
         ret None).

Fixpoint place_loop (remaining : nat) (itemName : string) (block : Block)
         (directionVec : Vec3.t) (retry : Z) : M W value :=
  match remaining with
  | O => ret (VBool false)
  | S remaining' =>
      r <- place_attempt itemName block directionVec retry ;;
      match r with
      | Some v => ret v
      | None => place_loop remaining' itemName block directionVec (retry + 1)
      end
  end.

(** The occupancy pre-check guarded by [if (!skipAirCheck)]; answers
    whether the function returns [false] there. *)
Definition air_check (absX absY absZ : number) (directionVec : Vec3.t) : M W bool :=
  if negb skipAirCheck then
    let targetPos := Vec3.mk (absX + Vec3.x directionVec)%Qc
                             (absY + Vec3.y directionVec)%Qc
                             (absZ + Vec3.z directionVec)%Qc in
    targetBlock <- bot_blockAt targetPos ;;
    match targetBlock with
    | Some tb =>
        if negb (String.eqb (block_name tb) "air") then
          log (LTargetOccupied (block_name tb)) ;; ret true
        else ret false
    | None => ret false
    end
  else ret false.

(** Lines shared by both versions once the block is found and the item
    equipped: pre-check, then the retry loop. *)
Definition place_phase (itemName : string) (block : Block)
           (absX absY absZ : number) (directionVec : Vec3.t) : M W value :=
  refused <- air_check absX absY absZ directionVec ;;
  if refused then ret (VBool false)
  else place_loop maxRetries itemName block directionVec 0.

(** cane.js 23-71. *)
Definition cane_placeOnBlock (itemName : string) (c : coords)
           (directionVec : Vec3.t) : M W value :=
  ensure_origin LOriginNotSetCurrentCurrent ;;
  let '(x, y, z) := c in
  o <- origin_position ;;
  let absX := (Vec3.x o + x)%Qc in
  let absY := (Vec3.y o + y)%Qc in
  let absZ := (Vec3.z o - z)%Qc in
  block <- bot_blockAt (Vec3.mk absX absY absZ) ;;
  match block with
  | None =>
      log (LNoSupportingBlock absX absY absZ itemName) ;;
      ret (VBool false)
  | Some block =>
      equipped <- equipItem itemName "hand" ;;
      if negb (truthy equipped) then
        log (LCannotEquip itemName) ;;
        ret (VBool false)
      else
        place_phase itemName block absX absY absZ directionVec
  end.

(** rail.js 44-62: turn the head before placing. *)
Definition face (facingDirection : option string) : M W unit :=
  match facingDirection with
  | Some fd =>
      when (truthy_string fd)
        (p <- entity_position ;;
         h <- entity_height ;;
         let headPos := Vec3.plus p (Vec3.mk (num 0) h (num 0)) in
         lookAtTarget <-
           (if String.eqb fd "north" then
              ret (Some (Vec3.plus headPos (Vec3.mk (num 0) (num 0) (num (-1)))))
            else if String.eqb fd "south" then
              ret (Some (Vec3.plus headPos (Vec3.mk (num 0) (num 0) (num 1))))
            else if String.eqb fd "east" then
              ret (Some (Vec3.plus headPos (Vec3.mk (num 1) (num 0) (num 0))))
            else if String.eqb fd "west" then
              ret (Some (Vec3.plus headPos (Vec3.mk (num (-1)) (num 0) (num 0))))
            else if String.eqb fd "up" then
              ret (Some (Vec3.plus headPos (Vec3.mk (num 0) (num 1) (num 0))))
            else if String.eqb fd "down" then
              ret (Some (Vec3.plus headPos (Vec3.mk (num 0) (num (-1)) (num 0))))
            else
              (log (LInvalidFacing fd) ;; ret None)) ;;
         match lookAtTarget with
         | Some target =>
             log (LLooking fd) ;;
             bot_lookAt target ;;
             wait 200
         | None => ret tt
         end)
  | None => ret tt
  end.

(** rail.js 23-91. *)
Definition rail_placeOnBlock (itemName : string) (c : coords)
           (directionVec : Vec3.t) (facingDirection : option string) : M W value :=
  ensure_origin LOriginNotSetCurrentCurrent ;;
  let '(x, y, z) := c in
  o <- origin_position ;;
  let absX := (Vec3.x o + x)%Qc in
  let absY := (Vec3.y o + y)%Qc in
  let absZ := (Vec3.z o - z)%Qc in
  block <- bot_blockAt (Vec3.mk absX absY absZ) ;;
  match block with
  | None =>
      log (LNoSupportingBlock absX absY absZ itemName) ;;
      ret (VBool false)
  | Some block =>
      equipped <- equipItem itemName "hand" ;;
      if negb (truthy equipped) then
        log (LCannotEquip itemName) ;;
        ret (VBool false)
      else
        face facingDirection ;;
        place_phase itemName block absX absY absZ directionVec
  end.

(** The default [directionVec = new Vec3(0, 1, 0)]. *)
Definition default_directionVec : Vec3.t := Vec3.mk (num 0) (num 1) (num 0).

(** *** pourWaterInHole (cane.js 73-114, rail.js 93-134) *)

Definition forwardVec : Vec3.t := Vec3.mk (num 0) (num 0) (num (-1)).
Definition rightVec : Vec3.t := Vec3.mk (num 1) (num 0) (num 0).

(** The chain [position.clone().add(..).add(..).add(..)]. *)
Definition lookAtPoint (p : Vec3.t) (dx dy dz : number) : Vec3.t :=
  Vec3.add
    (Vec3.add
       (Vec3.add (Vec3.clone p) (Vec3.scaled rightVec dx))
       (Vec3.mk (num 0) dy (num 0)))
    (Vec3.scaled forwardVec dz).

Definition pourWaterInHole (dx dy dz : number) : M W value :=
  log (LPouring dx dy dz) ;;
  ensure_origin LOriginNotSet ;;
  yw <- origin_yaw ;;
  p <- origin_position ;;
  let target := lookAtPoint p dx dy dz in
  try_catch
    (equipped <- equipItem "water_bucket" "hand" ;;
     if negb (truthy equipped) then
       log LCannotEquipWaterBucket ;;
       ret (VBool false)
     else
       log LEquippedWaterBucket ;;
       log (LLookingAtTarget target) ;;
       bot_lookAt target ;;
       wait 200 ;;
       bot_activateItem ;;
       log LPoured ;;
       wait 1000 ;;
       ret (VBool true))
    (fun e =>
       log (LPourError e) ;;
       ret (VBool false)).

(** *** walkTo (cane.js 129-150, rail.js 149-170) *)

Definition walkTo (dx dy dz : number) : M W value :=
  ensure_origin LOriginNotSet ;;
  o <- origin_position ;;
  let targetPos := Vec3.mk (Vec3.x o + dx)%Qc (Vec3.y o + dy)%Qc (Vec3.z o - dz)%Qc in
  log (LGoing dx dy dz targetPos) ;;
  goToPosition (Vec3.x targetPos) (Vec3.y targetPos) (Vec3.z targetPos).

(** *** acquireItems (cane.js 152-194, rail.js 172-209)

    The object literal [requiredItems] is enumerated by [for ... in]
    in insertion order: an association list. *)

Definition cane_requiredItems : list (string * Z) :=
  [ ("chest", 2); ("hopper", 6); ("rail", 3); ("powered_rail", 2);
    ("oak_planks", 45); ("redstone_block", 2); ("grass_block", 17);
    ("water_bucket", 5); ("piston", 5); ("observer", 5); ("redstone", 5);
    ("sugar_cane", 5); ("glass", 21); ("hopper_minecart", 1) ].

Definition rail_requiredItems : list (string * Z) :=
  [ ("rail", 1); ("smooth_stone", 8); ("piston", 2); ("observer", 1);
    ("redstone", 5); ("hopper_minecart", 1); ("redstone_torch", 2);
    ("repeater", 1); ("lever", 1) ].

(** [counts[itemName] || 0]. *)
Definition or_zero (c : option Z) : Z :=
  match c with
  | Some n => if n =? 0 then 0 else n
  | None => 0
  end.

(** The text of the acquisition request. *)
Definition give_command (itemName : string) (amountToGive : Z) : string :=
  ("/give @s " ++ itemName ++ " " ++ string_of_Z amountToGive)%string.

(** One iteration of the [for ... in] loop. *)
Definition acquire_item (itemName : string) (requiredAmount : Z) : M W unit :=
  counts <- world_getInventoryCounts ;;
  let currentAmount := or_zero (counts itemName) in
  if currentAmount <? requiredAmount then
    let amountToGive := requiredAmount - currentAmount in
    log (LGiving currentAmount itemName requiredAmount amountToGive) ;;
    bot_chat (give_command itemName amountToGive) ;;
    wait 200
  else
    log (LEnough itemName).

Definition acquire_loop (items : list (string * Z)) : M W unit :=
  for_each (fun entry => acquire_item (fst entry) (snd entry)) items.

Definition acquireItems (requiredItems : list (string * Z)) : M W value :=
  log LChecking ;;
  acquire_loop requiredItems ;;
  log LFinishedAcquiring ;;
  ret (VBool true).

Definition cane_acquireItems : M W value := acquireItems cane_requiredItems.
Definition rail_acquireItems : M W value := acquireItems rail_requiredItems.

(** *** toggleBlock (rail.js 253-278) *)

(** [block?.name || fallback]. *)
Definition name_or (block : option Block) (fallback : string) : string :=
  match block with
  | Some b => if truthy_string (block_name b) then block_name b else fallback
  | None => fallback
  end.

Definition toggleBlock (blockType : string) (x y z : number) : M W value :=
  log (LToggleAttempt blockType x y z) ;;
  ensure_origin LOriginNotSet ;;
  o <- origin_position ;;
  let abs_x := (Vec3.x o + x)%Qc in
  let abs_y := (Vec3.y o + y)%Qc in
  let abs_z := (Vec3.z o - z)%Qc in
  let pos := Vec3.floored (Vec3.mk abs_x abs_y abs_z) in
  block <- bot_blockAt pos ;;
  match block with
  | Some b =>
      if String.eqb (block_name b) blockType then
        try_catch
          (bot_activateBlock b ;;
           log (LActivated blockType pos))
          (fun e => log (LActivateError pos (message e))) ;;
        ret VUndefined
      else
        log (LToggleNotFound blockType x y z pos (name_or block "nothing")) ;;
        ret VUndefined
  | None =>
      log (LToggleNotFound blockType x y z pos (name_or block "nothing")) ;;
      ret VUndefined
  end.

(** *** dig (rail.js 280-310) *)

(** The cell an offset designates: [new Vec3(abs_x, abs_y, abs_z).floored()]. *)
Definition pos_to_dig (o : Vec3.t) (offset : coords) : Vec3.t :=
  let '(rel_x, rel_y, rel_z) := offset in
  let abs_x := (Vec3.x o + rel_x)%Qc in
  let abs_y := (Vec3.y o + rel_y)%Qc in
  let abs_z := (Vec3.z o - rel_z)%Qc in
  Vec3.floored (Vec3.mk abs_x abs_y abs_z).

(** [block && bot.canDigBlock(block) && block.name !== 'air'], with the
    short-circuit: [canDigBlock] is asked only about a block that exists. *)
Definition diggable (block : option Block) : M W bool :=
  match block with
  | Some b =>
      can <- bot_canDigBlock b ;;
      ret (can && negb (String.eqb (block_name b) "air"))
  | None => ret false
  end.

(** The body of [for (const offset of blocks_to_dig)]. *)
Definition dig_offset (o : Vec3.t) (offset : coords) : M W unit :=
  let '(rel_x, rel_y, rel_z) := offset in
  let pos := pos_to_dig o offset in
  block <- bot_blockAt pos ;;
  ok <- diggable block ;;
  match block, ok with
  | Some b, true =>
      log (LDigging rel_x rel_y rel_z pos) ;;
      try_catch
        (bot_dig b)
        (fun e => log (LCouldNotDig pos (message e)))
  | _, _ =>
      log (LCannotDig pos (name_or block "out of sight"))
  end.

Definition dig_loop (o : Vec3.t) (blocks_to_dig : list coords) : M W unit :=
  for_each (dig_offset o) blocks_to_dig.

Definition dig (blocks_to_dig : list coords) : M W value :=
  log LDigStart ;;
  ensure_origin LOriginNotSet ;;
  o <- origin_position ;;
  dig_loop o blocks_to_dig ;;
  ret VUndefined.

End Helpers.

Arguments maxRetries : simpl never.

(** ** What the specification calls [resolve]

    The two files have no function of this name: each helper repeats the
    three additions in line.  [resolve] is the mapping as the
    specification words it, against which the helpers are compared. *)
Definition resolve (o : Origin) (c : coords) : Vec3.t :=
  let '(r, u, f) := c in
  Vec3.mk (Vec3.x (position o) + r)%Qc
          (Vec3.y (position o) + u)%Qc
          (Vec3.z (position o) - f)%Qc.

(** The frame a helper works in: [bot.origin] when set, otherwise the
    snapshot [setOrigin] takes on first use. *)
Definition frame {W} (B : Bridge W) (s : Bot W) : Origin :=
  match origin s with
  | Some o => o
  | None => mkOrigin (Vec3.clone (get_entity_position B (world s)))
                     (get_entity_yaw B (world s))
  end.

(** The log lines of the lazy initialisation
    [if (!bot.origin) { log(...); await setOrigin(bot); }]. *)
Definition origin_notice {W} (B : Bridge W) (notice : LogMsg) (s : Bot W) : list Event :=
  match origin s with
  | Some _ => []
  | None => [Log notice;
             Log (LOriginSet (position (frame B s)) (yaw (frame B s)))]
  end.

(** Whether an invocation of placeOnBlock gets as far as the retry
    loop: a block is found at the resolved coordinate, the item is in the
    inventory and equipping it does not throw. *)
Definition reaches_placement {W} (B : Bridge W) (itemName : string) (c : coords)
           (s : Bot W) : bool :=
  match get_blockAt B (world s) (resolve (frame B s) c) with
  | None => false
  | Some _ =>
      match get_findInventoryItem B (world s) itemName with
      | None => false
      | Some it => negb (is_object (snd (do_equip B (world s) it "hand")))
      end
  end.

(** ** Reading a list of events *)

Definition blockAt_queries (t : list Event) : list Vec3.t :=
  flat_map (fun e => match e with CallBlockAt p => [p] | _ => [] end) t.

Definition lookAt_calls (t : list Event) : list Vec3.t :=
  flat_map (fun e => match e with CallLookAt p => [p] | _ => [] end) t.

Definition goTo_calls (t : list Event) : list Vec3.t :=
  flat_map (fun e => match e with
                     | CallGoToPosition gx gy gz _ => [Vec3.mk gx gy gz]
                     | _ => []
                     end) t.

Definition equip_calls (t : list Event) : list (Item * string) :=
  flat_map (fun e => match e with CallEquip it h _ => [(it, h)] | _ => [] end) t.

(** Outcome of every [bot.placeBlock] call, in order. *)
Definition place_outcomes (t : list Event) : list (option Error) :=
  flat_map (fun e => match e with CallPlaceBlock _ _ r => [r] | _ => [] end) t.


Definition activate_calls (t : list Event) : list Block :=
  flat_map (fun e => match e with CallActivateBlock b _ => [b] | _ => [] end) t.

Definition dig_calls (t : list Event) : list Block :=
  flat_map (fun e => match e with CallDig b _ => [b] | _ => [] end) t.

Definition chat_calls (t : list Event) : list string :=
  flat_map (fun e => match e with CallChat c => [c] | _ => [] end) t.

Definition logs (t : list Event) : list LogMsg :=
  flat_map (fun e => match e with Log m => [m] | _ => [] end) t.

(** A placement attempt that threw an error other than the benign one. *)
Definition transient_failure (r : option Error) : bool :=
  match r with
  | Some e => negb (benign e)
  | None => false
  end.

(** A placement attempt that threw the benign error. *)
Definition benign_failure (r : option Error) : bool :=
  match r with
  | Some e => benign e
  | None => false
  end.

(** The outcomes a run of the retry loop with [n] iterations left can
    leave behind, and the boolean it returns: transient failures, ended
    by the first attempt that is not one, or by running out. *)
Inductive attempts : nat -> list (option Error) -> bool -> Prop :=
| attempts_exhausted : attempts O [] false
| attempts_done n r :
    transient_failure r = false -> attempts (S n) [r] true
| attempts_retry n r rest b :
    transient_failure r = true -> attempts n rest b ->
    attempts (S n) (r :: rest) b.

Definition is_bool (v : value) : bool :=
  match v with VBool _ => true | VUndefined => false end.

(** The five primitives of the glossary, with their arguments. *)
Inductive Primitive : Type :=
| PPlace (itemName : string) (c : coords) (directionVec : Vec3.t)
         (facingDirection : option string)
| PDig (blocks_to_dig : list coords)
| PToggle (blockType : string) (x y z : number)
| PPour (dx dy dz : number)
| PEquip (itemName hand : string).

Definition run_primitive {W} (B : Bridge W) (p : Primitive) : M W value :=
  match p with
  | PPlace itemName c directionVec facingDirection =>
      rail_placeOnBlock B itemName c directionVec facingDirection
  | PDig blocks_to_dig => dig B blocks_to_dig
  | PToggle blockType x y z => toggleBlock B blockType x y z
  | PPour dx dy dz => pourWaterInHole B dx dy dz
  | PEquip itemName hand => equipItem B itemName hand
  end.

(** The outcome the specification promises for every primitive: a
    boolean, with at least one log line. *)
Definition boolean_outcome_with_log {W} (B : Bridge W) (p : Primitive) (s : Bot W)
  : Prop :=
  (exists b, result_of (run_primitive B p s) = Normal (VBool b))
  /\ logs (events_of (run_primitive B p s)) <> [].

(** Which primitives have a [return] statement at all. *)
Definition returns_a_value (p : Primitive) : bool :=
  match p with
  | PDig _ | PToggle _ _ _ _ => false
  | PPlace _ _ _ _ | PPour _ _ _ | PEquip _ _ => true
  end.


(** Two runs that cannot be told apart: same completion, same calls and
    log lines, same environment afterwards. *)
Definition same_run {W A} (r1 r2 : Completion A * Bot W * list Event) : Prop :=
  result_of r1 = result_of r2
  /\ events_of r1 = events_of r2
  /\ world (bot_of r1) = world (bot_of r2).



(** A helper that cannot tell two origin frames with the same position
    apart: from the same environment it completes the same way, performs
    the same calls and leaves the same environment, whatever the yaw. *)
Definition yaw_blind {W A} (m : M W A) : Prop :=
  forall (w : W) (o1 o2 : Origin),
    position o1 = position o2 ->
    exists r w' t,
      m (mkBot w (Some o1)) = (r, mkBot w' (Some o1), t)
      /\ m (mkBot w (Some o2)) = (r, mkBot w' (Some o2), t).

(** ** A small voxel world behind the bridge

    A deterministic environment on which the helpers can be run: flat
    stone ground below height 64, air above, nothing loaded below
    height 0, an inventory that is not used up.  Placement follows the
    game's rule: a block clicked on a replaceable cell (air, water) goes
    into that cell, otherwise into the neighbouring cell on the clicked
    face.  The bot waits for the update of the neighbouring cell, so the
    first case ends with the time-out of the [blockUpdate] event. *)
Module Sim.

Definition cell : Type := (Z * Z * Z)%type.

Record World : Type := mkWorld {
  changed : list (cell * string);   (* cells that differ from the terrain, newest first *)
  inventory : list (string * Z);
  held : option string;
  entity : Vec3.t;
  heading : number;
  looking : option Vec3.t;
  jammed : bool;                    (* the server refuses every equip *)
  activated : list cell;
  chat_log : list string;
  clock : Z
}.

Definition cell_of (p : Vec3.t) : cell :=
  (Qfloor (Vec3.x p), Qfloor (Vec3.y p), Qfloor (Vec3.z p)).

Definition vec_of (c : cell) : Vec3.t :=
  let '(cx, cy, cz) := c in Vec3.mk (num cx) (num cy) (num cz).

Definition cell_eqb (a b : cell) : bool :=
  let '(ax, ay, az) := a in
  let '(bx, by_, bz) := b in
  (ax =? bx) && (ay =? by_) && (az =? bz).

Definition terrain (c : cell) : string :=
  let '(_, cy, _) := c in
  if cy <? 64 then "stone" else "air".

Fixpoint lookup_cell (l : list (cell * string)) (c : cell) : option string :=
  match l with
  | [] => None
  | (c', n) :: rest => if cell_eqb c' c then Some n else lookup_cell rest c
  end.

Definition name_at (w : World) (c : cell) : string :=
  match lookup_cell (changed w) c with
  | Some n => n
  | None => terrain c
  end.

Definition loaded (c : cell) : bool :=
  let '(_, cy, _) := c in 0 <=? cy.

Definition replaceable (n : string) : bool :=
  String.eqb n "air" || String.eqb n "water".

Definition set_cell (w : World) (c : cell) (n : string) : World :=
  mkWorld ((c, n) :: changed w) (inventory w) (held w) (entity w) (heading w)
          (looking w) (jammed w) (activated w) (chat_log w) (clock w).

Fixpoint count_of (inv : list (string * Z)) (n : string) : option Z :=
  match inv with
  | [] => None
  | (n', k) :: rest => if String.eqb n' n then Some k else count_of rest n
  end.

Definition blockAt (w : World) (p : Vec3.t) : option Block :=
  let c := cell_of p in
  if loaded c then Some (mkBlock (name_at w c) (vec_of c)) else None.

Definition findInventoryItem (w : World) (n : string) : option Item :=
  match count_of (inventory w) n with
  | Some k => if 0 <? k then Some (mkItem n k) else None
  | None => None
  end.

Definition equip (w : World) (it : Item) (hand : string) : World * option Error :=
  if jammed w then (w, Some (mkError (Some "Equip refused")))
  else (mkWorld (changed w) (inventory w) (Some (item_name it)) (entity w)
                (heading w) (looking w) (jammed w) (activated w) (chat_log w)
                (clock w), None).

Definition placeBlock (w : World) (b : Block) (dir : Vec3.t) : World * option Error :=
  match held w with
  | None => (w, Some (mkError (Some "must be holding an item to place")))
  | Some it =>
      let ref := cell_of (block_position b) in
      let dest := cell_of (Vec3.plus (block_position b) dir) in
      if replaceable (name_at w ref) then
        (set_cell w ref it,
         Some (mkError (Some "Event blockUpdate did not fire within timeout of 5000ms")))
      else if replaceable (name_at w dest) then
        (set_cell w dest it, None)
      else
        (w, Some (mkError (Some "No block has been placed")))
  end.

Definition activateBlock (w : World) (b : Block) : World * option Error :=
  (mkWorld (changed w) (inventory w) (held w) (entity w) (heading w) (looking w)
           (jammed w) (cell_of (block_position b) :: activated w) (chat_log w)
           (clock w), None).

Definition activateItem (w : World) : World * option Error :=
  match held w, looking w with
  | Some "water_bucket", Some p => (set_cell w (cell_of p) "water", None)
  | _, _ => (w, None)
  end.

Definition canDigBlock (w : World) (b : Block) : bool :=
  negb (String.eqb (block_name b) "bedrock").

Definition dig (w : World) (b : Block) : World * option Error :=
  let c := cell_of (block_position b) in
  if String.eqb (name_at w c) "bedrock" then
    (w, Some (mkError (Some "dig was refused")))
  else (set_cell w c "air", None).

Definition lookAt (w : World) (p : Vec3.t) : World :=
  mkWorld (changed w) (inventory w) (held w) (entity w) (heading w) (Some p)
          (jammed w) (activated w) (chat_log w) (clock w).

Definition chat (w : World) (text : string) : World :=
  mkWorld (changed w) (inventory w) (held w) (entity w) (heading w) (looking w)
          (jammed w) (activated w) (text :: chat_log w) (clock w).

Definition wait (w : World) (ms : Z) : World :=
  mkWorld (changed w) (inventory w) (held w) (entity w) (heading w) (looking w)
          (jammed w) (activated w) (chat_log w) (clock w + ms).

Definition goToPosition (w : World) (gx gy gz : number) : World * (Error + bool) :=
  (mkWorld (changed w) (inventory w) (held w) (Vec3.mk gx gy gz) (heading w)
           (looking w) (jammed w) (activated w) (chat_log w) (clock w), inr true).

Definition bridge : Bridge World :=
  mkBridge World
    entity heading (fun _ => Q2Qc (9 # 5))
    blockAt findInventoryItem (fun w => count_of (inventory w)) canDigBlock
    equip placeBlock activateBlock activateItem dig
    lookAt chat wait goToPosition.

(** The bot standing on the ground at the centre of a block, carrying
    some hoppers, torches and a lever. *)
Definition start : World :=
  mkWorld [] [("hopper", 6); ("torch", 5); ("lever", 1); ("rail", 0)] None
          (Vec3.mk (Q2Qc (1 # 2)) (num 64) (Q2Qc (1 # 2))) (num 0)
          None false [] [] 0.

(** The same bot once [setOrigin] ran. *)
Definition start_origin : Origin := mkOrigin (entity start) (heading start).

Definition ready : Bot World := mkBot start (Some start_origin).

(** A bot without origin yet. *)
Definition fresh : Bot World := mkBot start None.

(** The same ground with the second cell in front of the bot, one block
    down, already dug out. *)
Definition pit : Bot World :=
  mkBot (set_cell start (0, 63, -2) "air") (Some start_origin).

(** A server that refuses to equip. *)
Definition jammed_start : World :=
  mkWorld [] (inventory start) None (entity start) (heading start) None true [] [] 0.

End Sim.

(** ** The build scripts and their helpers

    jumpForDuration, walkNorth, makeCaneMachine and makeRailMachine use
    the bot beyond the bridge of the placement helpers: the wall clock
    ([Date.now]), [bot.interrupt_code], [bot.setControlState] and
    [goToPosition] with an explicit distance.  These capabilities are a
    second parameter ([Controls]); their calls and log lines extend the
    events of the helpers. *)

Record Controls (W : Type) : Type := mkControls {
  do_now : W -> W * Z;
  get_interrupt_code : W -> bool;
  do_setControlState : W -> string -> bool -> W;
  do_goToPositionNear : W -> number -> number -> number -> number -> W * (Error + bool)
}.

Arguments do_now {W}.
Arguments get_interrupt_code {W}.
Arguments do_setControlState {W}.
Arguments do_goToPositionNear {W}.

Inductive ScriptLogMsg : Type :=
| LJumpFor (duration : Z)
| LJumpInterrupted
| LStoppedJumping
| LWalkingNorth (steps : number).

Inductive ScriptEvent : Type :=
| OfHelper (e : Event)
| ScriptLog (m : ScriptLogMsg)
| CallDateNow (t : Z)
| CallSetControlState (control : string) (state : bool)
| CallGoToPositionNear (gx gy gz min_distance : number) (r : Error + bool).

(** The monad of the scripts: as [M], over the larger events. *)
Definition Script (W A : Type) : Type :=
  Bot W -> Completion A * Bot W * list ScriptEvent.

Definition sret {W A} (a : A) : Script W A := fun s => (Normal a, s, []).

Definition sbind {W A B} (m : Script W A) (f : A -> Script W B) : Script W B :=
  fun s =>
    match m s with
    | (Normal a, s1, t1) => let '(r, s2, t2) := f a s1 in (r, s2, t1 ++ t2)
    | (Abrupt e, s1, t1) => (Abrupt e, s1, t1)
    end.

(** A helper of the first part, called from a script. *)
Definition lift {W A} (m : M W A) : Script W A :=
  fun s => let '(r, s1, t1) := m s in (r, s1, map OfHelper t1).

(** Projections of the run of a script. *)
Definition sresult_of {W A} (r : Completion A * Bot W * list ScriptEvent)
  : Completion A := fst (fst r).
Definition sbot_of {W A} (r : Completion A * Bot W * list ScriptEvent) : Bot W :=
  snd (fst r).
Definition sevents_of {W A} (r : Completion A * Bot W * list ScriptEvent)
  : list ScriptEvent := snd r.

Declare Scope script_scope.
Delimit Scope script_scope with script.
Notation "x <- m ;; k" := (sbind m (fun x => k))
  (at level 61, m at next level, right associativity) : script_scope.
Notation "m ;; k" := (sbind m (fun _ => k))
  (at level 61, right associativity) : script_scope.

(** An integer offset triple and an integer vector, as the scripts
    write them. *)
Definition off (x y z : Z) : coords := (num x, num y, num z).
Definition vec (x y z : Z) : Vec3.t := Vec3.mk (num x) (num y) (num z).

(** One line of a build script: a call of a helper with literal
    arguments.  [SPlace] keeps an omitted direction as [None]. *)
Inductive Step : Type :=
| SPlace (itemName : string) (c : coords) (directionVec : option Vec3.t)
         (facingDirection : option string)
| SWalkTo (c : coords)
| SDig (blocks_to_dig : list coords)
| SToggle (blockType : string) (c : coords)
| SPour (c : coords)
| SControl (control : string) (state : bool).

Section Scripts.

Context {W : Type} (B : Bridge W) (C : Controls W).

Local Open Scope script_scope.

Definition script_log (m : ScriptLogMsg) : Script W unit :=
  fun s => (Normal tt, s, [ScriptLog m]).

(** [Date.now()]. *)
Definition date_now : Script W Z :=
  fun s => let '(w', t) := do_now C (world s) in
           (Normal t, mkBot w' (origin s), [CallDateNow t]).

(** [bot.interrupt_code]. *)
Definition interrupt_code : Script W bool :=
  fun s => (Normal (get_interrupt_code C (world s)), s, []).

Definition bot_setControlState (control : string) (state : bool) : Script W unit :=
  fun s => (Normal tt, mkBot (do_setControlState C (world s) control state) (origin s),
            [CallSetControlState control state]).

(** [goToPosition(bot, x, y, z, min_distance)]. *)
Definition goToPositionNear (gx gy gz min_distance : number) : Script W value :=
  fun s =>
    let '(w', r) := do_goToPositionNear C (world s) gx gy gz min_distance in
    (match r with inr b => Normal (VBool b) | inl e => Abrupt e end,
     mkBot w' (origin s), [CallGoToPositionNear gx gy gz min_distance r]).

(** *** jumpForDuration (cane.js 196-220, rail.js 211-235)

    The [while (Date.now() < endTime)] loop need not end: [fuel] bounds
    the number of iterations, and [None] says it was used up before the
    loop ended.  [Some tt] is the exit of the loop, by its condition or
    by [break]. *)
Fixpoint jump_loop (fuel : nat) (endTime : Z) : Script W (option unit) :=
  match fuel with
  | O => sret None
  | S fuel' =>
      now <- date_now ;;
      if now <? endTime then
        interrupted <- interrupt_code ;;
        if interrupted then
          script_log LJumpInterrupted ;;
          sret (Some tt)
        else
          bot_setControlState "jump" true ;;
          lift (wait B 100) ;;
          bot_setControlState "jump" false ;;
          lift (wait B 100) ;;
          jump_loop fuel' endTime
      else sret (Some tt)
  end.

Definition jumpForDuration (fuel : nat) (duration : Z) : Script W (option value) :=
  script_log (LJumpFor duration) ;;
  now <- date_now ;;
  let endTime := now + duration in
  finished <- jump_loop fuel endTime ;;
  match finished with
  | None => sret None
  | Some _ =>
      bot_setControlState "jump" false ;;
      script_log LStoppedJumping ;;
      sret (Some (VBool true))
  end.

(** *** walkNorth (cane.js 222-236, rail.js 237-251) *)

Definition walkNorth (steps : number) : Script W value :=
  currentPos <- lift (entity_position B) ;;
  let targetZ := (Vec3.z currentPos - steps)%Qc in
  script_log (LWalkingNorth steps) ;;
  goToPositionNear (Vec3.x currentPos) (Vec3.y currentPos) targetZ (num 1).

(** *** The scripted calls *)

(** One awaited call.  [place] is the file's own placeOnBlock. *)
Definition run_step (place : string -> coords -> Vec3.t -> option string -> M W value)
           (st : Step) : Script W value :=
  match st with
  | SPlace itemName c directionVec facingDirection =>
      lift (place itemName c
                  (match directionVec with
                   | Some d => d
                   | None => default_directionVec
                   end)
                  facingDirection)
  | SWalkTo (dx, dy, dz) => lift (walkTo B dx dy dz)
  | SDig blocks_to_dig => lift (dig B blocks_to_dig)
  | SToggle blockType (x, y, z) => lift (toggleBlock B blockType x y z)
  | SPour (dx, dy, dz) => lift (pourWaterInHole B dx dy dz)
  | SControl control state => bot_setControlState control state ;; sret VUndefined
  end.

(** The calls of a script one after the other: a call that throws ends
    the script. *)
Fixpoint run_steps (place : string -> coords -> Vec3.t -> option string -> M W value)
         (steps : list Step) : Script W unit :=
  match steps with
  | [] => sret tt
  | st :: rest => run_step place st ;; run_steps place rest
  end.

Definition cane_place : string -> coords -> Vec3.t -> option string -> M W value :=
  fun itemName c directionVec _ => cane_placeOnBlock B itemName c directionVec.

Definition rail_place : string -> coords -> Vec3.t -> option string -> M W value :=
  rail_placeOnBlock B.

End Scripts.

(** cane.js 245-394. *)
Definition cane_steps : list Step :=
  [ SPlace "chest" (off 0 (-1) 1) None None;
    SWalkTo (off 0 0 8);
    SControl "sneak" true;
    SPlace "hopper" (off 0 0 2) (Some (vec 0 0 (-1))) None;
    SPlace "hopper" (off 0 0 2) (Some (vec 0 0 (-1))) None;
    SPlace "hopper" (off 0 0 3) (Some (vec (-1) 0 0)) None;
    SPlace "hopper" (off (-1) 0 3) (Some (vec (-1) 0 0)) None;
    SPlace "hopper" (off 0 0 3) (Some (vec 1 0 0)) None;
    SPlace "hopper" (off 1 0 3) (Some (vec 1 0 0)) None;
    SPlace "powered_rail" (off (-2) 0 3) None None;
    SPlace "rail" (off (-1) 0 3) None None;
    SPlace "rail" (off 0 0 3) None None;
    SPlace "rail" (off 1 0 3) None None;
    SPlace "powered_rail" (off 2 0 3) None None;
    SControl "sneak" false;
    SPlace "oak_planks" (off (-3) (-1) 3) None None;
    SPlace "oak_planks" (off (-3) 0 3) None None;
    SPlace "oak_planks" (off 3 (-1) 3) None None;
    SPlace "oak_planks" (off 3 0 3) None None;
    SPlace "oak_planks" (off (-3) (-1) 4) None None;
    SPlace "oak_planks" (off (-3) 0 4) None None;
    SPlace "oak_planks" (off 3 (-1) 4) None None;
    SPlace "oak_planks" (off 3 0 4) None None;
    SPlace "oak_planks" (off (-2) (-1) 4) None None;
    SPlace "redstone_block" (off (-2) 0 4) None None;
    SPlace "oak_planks" (off (-1) (-1) 4) None None;
    SPlace "oak_planks" (off (-1) 0 4) None None;
    SPlace "oak_planks" (off 2 (-1) 4) None None;
    SPlace "redstone_block" (off 2 0 4) None None;
    SPlace "oak_planks" (off 1 (-1) 4) None None;
    SPlace "oak_planks" (off 1 0 4) None None;
    SPlace "oak_planks" (off 0 (-1) 4) None None;
    SPlace "oak_planks" (off 0 0 4) None None;
    SPlace "grass_block" (off (-3) (-1) 5) None None;
    SWalkTo (off 0 2 4);
    SPlace "grass_block" (off (-2) 1 3) None None;
    SPlace "grass_block" (off (-1) 1 3) None None;
    SPlace "grass_block" (off 0 1 3) None None;
    SPlace "grass_block" (off 1 1 3) None None;
    SPlace "grass_block" (off 2 1 3) None None;
    SPlace "oak_planks" (off 3 1 4) None None;
    SPlace "oak_planks" (off 3 1 3) None None;
    SPlace "oak_planks" (off (-3) 1 4) None None;
    SPlace "oak_planks" (off (-3) 1 3) None None;
    SPlace "oak_planks" (off (-3) 2 3) (Some (vec 0 0 1)) None;
    SPlace "oak_planks" (off (-3) 2 2) (Some (vec 1 0 0)) None;
    SPlace "oak_planks" (off (-2) 2 2) (Some (vec 1 0 0)) None;
    SPlace "oak_planks" (off (-1) 2 2) (Some (vec 1 0 0)) None;
    SPlace "oak_planks" (off 0 2 2) (Some (vec 1 0 0)) None;
    SPlace "oak_planks" (off 1 2 2) (Some (vec 1 0 0)) None;
    SPlace "oak_planks" (off 2 2 2) (Some (vec 1 0 0)) None;
    SPlace "oak_planks" (off (-3) 2 4) (Some (vec 0 0 (-1))) None;
    SPlace "oak_planks" (off (-3) 2 5) (Some (vec 1 0 0)) None;
    SPlace "oak_planks" (off (-2) 2 5) (Some (vec 1 0 0)) None;
    SPlace "oak_planks" (off (-1) 2 5) (Some (vec 1 0 0)) None;
    SPlace "oak_planks" (off 0 2 5) (Some (vec 1 0 0)) None;
    SPlace "oak_planks" (off 1 2 5) (Some (vec 1 0 0)) None;
    SPlace "oak_planks" (off 2 2 5) (Some (vec 1 0 0)) None;
    SWalkTo (off 0 4 3);
    SPour (off (-2) 2 4);
    SPour (off (-1) 2 4);
    SPour (off 0 2 4);
    SPour (off 1 2 4);
    SPour (off 2 2 4);
    SPlace "sugar_cane" (off 2 2 3) None None;
    SPlace "sugar_cane" (off 1 2 3) None None;
    SPlace "sugar_cane" (off 0 2 3) None None;
    SPlace "sugar_cane" (off (-1) 2 3) None None;
    SPlace "sugar_cane" (off (-2) 2 3) None None;
    SPlace "oak_planks" (off 3 2 4) None None;
    SPlace "oak_planks" (off (-3) 2 4) None None;
    SPlace "oak_planks" (off 3 3 4) (Some (vec (-1) 0 0)) None;
    SPlace "oak_planks" (off 2 3 4) (Some (vec (-1) 0 0)) None;
    SPlace "oak_planks" (off 1 3 4) (Some (vec (-1) 0 0)) None;
    SPlace "oak_planks" (off 0 3 4) (Some (vec (-1) 0 0)) None;
    SPlace "oak_planks" (off (-1) 3 4) (Some (vec (-1) 0 0)) None;
    SWalkTo (off (-2) 4 3);
    SPlace "piston" (off (-2) 3 4) None None;
    SWalkTo (off (-1) 4 3);
    SPlace "piston" (off (-1) 3 4) None None;
    SWalkTo (off 0 4 3);
    SPlace "piston" (off 0 3 4) None None;
    SWalkTo (off 1 4 3);
    SPlace "piston" (off 1 3 4) None None;
    SWalkTo (off 2 4 3);
    SPlace "piston" (off 2 3 4) None None;
    SWalkTo (off 3 4 4);
    SPlace "grass_block" (off (-2) 2 5) None None;
    SPlace "grass_block" (off (-1) 2 5) None None;
    SPlace "grass_block" (off 0 2 5) None None;
    SPlace "grass_block" (off 1 2 5) None None;
    SPlace "grass_block" (off 2 2 5) None None;
    SPlace "grass_block" (off 3 2 5) None None;
    SWalkTo (off (-2) 5 6);
    SPlace "observer" (off (-2) 4 4) None None;
    SWalkTo (off (-1) 5 6);
    SPlace "observer" (off (-1) 4 4) None None;
    SWalkTo (off 0 5 6);
    SPlace "observer" (off 0 4 4) None None;
    SWalkTo (off 1 5 6);
    SPlace "observer" (off 1 4 4) None None;
    SWalkTo (off 2 5 6);
    SPlace "observer" (off 2 4 4) None None;
    SWalkTo (off 3 5 6);
    SPlace "grass_block" (off (-2) 3 5) None None;
    SPlace "grass_block" (off (-1) 3 5) None None;
    SPlace "grass_block" (off 0 3 5) None None;
    SPlace "grass_block" (off 1 3 5) None None;
    SPlace "grass_block" (off 2 3 5) None None;
    SPlace "redstone" (off 2 4 5) None None;
    SPlace "redstone" (off 1 4 5) None None;
    SPlace "redstone" (off 0 4 5) None None;
    SPlace "redstone" (off (-1) 4 5) None None;
    SPlace "redstone" (off (-2) 4 5) None None;
    SWalkTo (off 0 2 2);
    SPlace "glass" (off (-3) 2 3) None None;
    SPlace "glass" (off (-3) 3 3) None None;
    SPlace "glass" (off (-3) 4 3) None None;
    SPlace "glass" (off (-2) 2 2) None None;
    SPlace "glass" (off (-2) 3 2) None None;
    SPlace "glass" (off (-2) 4 2) None None;
    SPlace "glass" (off (-1) 2 2) None None;
    SPlace "glass" (off (-1) 3 2) None None;
    SPlace "glass" (off (-1) 4 2) None None;
    SPlace "glass" (off 3 2 3) None None;
    SPlace "glass" (off 3 3 3) None None;
    SPlace "glass" (off 3 4 3) None None;
    SPlace "glass" (off 2 2 2) None None;
    SPlace "glass" (off 2 3 2) None None;
    SPlace "glass" (off 2 4 2) None None;
    SPlace "glass" (off 1 2 2) None None;
    SPlace "glass" (off 1 3 2) None None;
    SPlace "glass" (off 1 4 2) None None;
    SWalkTo (off 0 1 1);
    SPlace "glass" (off 0 2 2) None None;
    SPlace "glass" (off 0 3 2) None None;
    SPlace "glass" (off 0 4 2) None None;
    SWalkTo (off 1 0 1);
    SPlace "hopper_minecart" (off 2 1 3) None None;
    SWalkTo (off 0 0 8) ].

(** rail.js 319-359. *)
Definition rail_steps : list Step :=
  [ SDig [(off 0 (-1) 1); (off 0 (-1) 2); (off 0 (-1) 3); (off 1 (-1) 1); (off 1 (-1) 2);
          (off 1 (-1) 3); (off (-1) (-1) 3)];
    SWalkTo (off (-2) 0 3);
    SPlace "piston" (off (-1) (-2) 3) None None;
    SPlace "smooth_stone" (off 0 (-2) 3) None None;
    SWalkTo (off 2 0 3);
    SPlace "redstone_torch" (off 0 (-1) 3) (Some (vec 1 0 0)) None;
    SPlace "smooth_stone" (off 1 (-1) 3) None None;
    SPlace "redstone_torch" (off 1 0 3) None None;
    SPlace "smooth_stone" (off 1 1 3) None None;
    SPlace "smooth_stone" (off 1 2 3) (Some (vec (-1) 0 0)) None;
    SPlace "smooth_stone" (off 0 2 3) (Some (vec (-1) 0 0)) None;
    SPlace "smooth_stone" (off (-1) 2 3) None None;
    SPlace "smooth_stone" (off (-1) 3 3) None None;
    SPlace "redstone" (off 1 2 3) None None;
    SPlace "redstone" (off 0 2 3) None None;
    SWalkTo (off (-1) 0 3);
    SDig [(off (-1) 2 3); (off (-1) 3 3)];
    SPlace "piston" (off (-1) 4 3) (Some (vec 0 (-1) 0)) None;
    SPlace "redstone" (off 1 (-2) 2) None None;
    SPlace "redstone" (off 1 (-2) 1) None None;
    SPlace "redstone" (off 0 (-2) 1) None None;
    SWalkTo (off 0 0 0);
    SPlace "repeater" (off 0 (-2) 2) None None;
    SPlace "lever" (off 1 0 3) (Some (vec 0 0 1)) None;
    SToggle "lever" (off 1 0 2);
    SToggle "repeater" (off 0 (-1) 2);
    SPlace "smooth_stone" (off (-1) (-1) 2) None None;
    SWalkTo (off (-1) 1 2);
    SPlace "observer" (off (-1) 0 3) (Some (vec 0 1 0)) (Some "down");
    SPlace "rail" (off (-1) 1 3) None None;
    SPlace "hopper_minecart" (off (-1) 2 3) None None;
    SWalkTo (off 0 0 0);
    SToggle "lever" (off 1 0 2) ].

Section Machines.

Context {W : Type} (B : Bridge W) (C : Controls W).

Local Open Scope script_scope.

(** The part of a script after the jump. *)
Definition build (acquire : M W value)
           (place : string -> coords -> Vec3.t -> option string -> M W value)
           (steps : list Step) : Script W value :=
  walkNorth B C (num 10) ;;
  lift acquire ;;
  lift (setOrigin B) ;;
  run_steps B C place steps ;;
  sret VUndefined.

(** cane.js 239-396. *)
Definition makeCaneMachine (fuel : nat) : Script W (option value) :=
  jumped <- jumpForDuration B C fuel 5000 ;;
  match jumped with
  | None => sret None
  | Some _ =>
      v <- build (cane_acquireItems B) (cane_place B) cane_steps ;;
      sret (Some v)
  end.

(** rail.js 313-366. *)
Definition makeRailMachine (fuel : nat) : Script W (option value) :=
  jumped <- jumpForDuration B C fuel 5000 ;;
  match jumped with
  | None => sret None
  | Some _ =>
      v <- build (rail_acquireItems B) (rail_place B) rail_steps ;;
      sret (Some v)
  end.

End Machines.

(** The clock and controls of the simulated world: the clock is the
    time waited so far, control states are not kept, and an explicit
    distance makes no difference to the navigation. *)
Definition sim_controls (interrupted : bool) : Controls Sim.World :=
  mkControls Sim.World
    (fun w => (w, Sim.clock w))
    (fun _ => interrupted)
    (fun w _ _ => w)
    (fun w gx gy gz _ => Sim.goToPosition w gx gy gz).

(** ** Reading the events of a script *)

(** The events of the helpers a script called. *)
Definition helper_events (t : list ScriptEvent) : list Event :=
  flat_map (fun e => match e with OfHelper h => [h] | _ => [] end) t.

Definition control_calls (t : list ScriptEvent) : list (string * bool) :=
  flat_map (fun e => match e with
                     | CallSetControlState c b => [(c, b)]
                     | _ => []
                     end) t.

(** The bridge calls of a list of events: everything but the log lines. *)
Definition bridge_calls (t : list Event) : list Event :=
  filter (fun e => match e with Log _ => false | _ => true end) t.

(** The attempt numbers of the "Attempt n ... failed" log lines. *)
Definition attempt_numbers (t : list Event) : list Z :=
  flat_map (fun e => match e with
                     | Log (LAttemptFailed n _ _) => [n]
                     | _ => []
                     end) t.

(** The six facing directions rail.js's placeOnBlock knows. *)
Definition known_facing (fd : string) : bool :=
  existsb (String.eqb fd) ["north"; "south"; "east"; "west"; "up"; "down"].

(** How many items of a name a script takes in hand to put into the
    world: one per placeOnBlock of the item, one water bucket per
    pourWaterInHole. *)
Definition step_uses (itemName : string) (st : Step) : Z :=
  match st with
  | SPlace i _ _ _ => if String.eqb i itemName then 1 else 0
  | SPour _ => if String.eqb "water_bucket" itemName then 1 else 0
  | _ => 0
  end.

Fixpoint uses (itemName : string) (steps : list Step) : Z :=
  match steps with
  | [] => 0
  | st :: rest => step_uses itemName st + uses itemName rest
  end.

(** The amount a required-item table asks for; [0] for an item it does
    not list.  The first entry of a name is the one that counts. *)
Fixpoint required (table : list (string * Z)) (itemName : string) : Z :=
  match table with
  | [] => 0
  | (n, k) :: rest => if String.eqb n itemName then k else required rest itemName
  end.

(** The unit vector, in world axes, that rail.js's placeOnBlock adds to
    the head position for a facing direction. *)
Definition facing_vector (fd : string) : option Vec3.t :=
  if String.eqb fd "north" then Some (vec 0 0 (-1))
  else if String.eqb fd "south" then Some (vec 0 0 1)
  else if String.eqb fd "east" then Some (vec 1 0 0)
  else if String.eqb fd "west" then Some (vec (-1) 0 0)
  else if String.eqb fd "up" then Some (vec 0 1 0)
  else if String.eqb fd "down" then Some (vec 0 (-1) 0)
  else None.

(** The eyes of the bot: [bot.entity.position.plus(new Vec3(0, bot.entity.height, 0))]. *)
Definition head_position {W} (B : Bridge W) (w : W) : Vec3.t :=
  Vec3.plus (get_entity_position B w)
            (Vec3.mk (num 0) (get_entity_height B w) (num 0)).

(** How often a list of events reads the inventory counts, and the
    waits it contains. *)
Definition inventory_reads (t : list Event) : nat :=
  length (filter (fun e => match e with CallGetInventoryCounts => true | _ => false end) t).

Definition wait_calls (t : list Event) : list Z :=
  flat_map (fun e => match e with CallWait ms => [ms] | _ => [] end) t.

(** The bridge calls of acquireItems for one entry of the table: the
    read of the inventory counts and, when an amount is requested, the
    [/give] of that amount for the item followed by the wait. *)
Definition entry_calls (entry : string * Z) (request : option Z) : list Event :=
  CallGetInventoryCounts
  :: match request with
     | Some amountToGive =>
         [CallChat (give_command (fst entry) amountToGive); CallWait 200]
     | None => []
     end.

(** The bridge calls of a table whose entries are served in order. *)
Fixpoint table_calls (items : list (string * Z)) (requests : list (option Z))
  : list Event :=
  match items, requests with
  | entry :: items', request :: requests' =>
      entry_calls entry request ++ table_calls items' requests'
  | _, _ => []
  end.

(** A request is made for a positive amount. *)
Definition positive_request (request : option Z) : Prop :=
  match request with
  | Some amountToGive => 0 < amountToGive
  | None => True
  end.

(** The two control calls of one jump. *)
Definition one_jump : list (string * bool) := [("jump", true); ("jump", false)].

(** The time the clock of an environment shows. *)
Definition time_of {W} (C : Controls W) (w : W) : Z := snd (do_now C w).

(** A clock that does not run backwards and runs during a wait: reading
    it and setting a control state do not take it back, and after
    [wait(bot, ms)] at least [ms] have passed. *)
Definition clock_advances {W} (B : Bridge W) (C : Controls W) : Prop :=
  (forall w, time_of C w <= time_of C (fst (do_now C w)))
  /\ (forall w control state,
         time_of C w <= time_of C (do_setControlState C w control state))
  /\ (forall w ms, time_of C w + ms <= time_of C (do_wait B w ms)).

(** Navigation that reports failure by its return value only. *)
Definition navigation_never_throws {W} (B : Bridge W) (C : Controls W) : Prop :=
  (forall w gx gy gz, exists b, snd (do_goToPosition B w gx gy gz) = inr b)
  /\ (forall w gx gy gz d, exists b, snd (do_goToPositionNear C w gx gy gz d) = inr b).

(** The cells a scripted call looks up, given the origin frame. *)
Definition step_cells (o : Origin) (st : Step) : list Vec3.t :=
  match st with
  | SPlace _ c _ _ => [resolve o c]
  | SDig blocks_to_dig => map (fun c => Vec3.floored (resolve o c)) blocks_to_dig
  | SToggle _ c => [Vec3.floored (resolve o c)]
  | SWalkTo _ | SPour _ | SControl _ _ => []
  end.

(** The items a scripted call takes in hand. *)
Definition step_items (st : Step) : list string :=
  match st with
  | SPlace i _ _ _ => [i]
  | SPour _ => ["water_bucket"]
  | _ => []
  end.

Definition items_of (steps : list Step) : list string := flat_map step_items steps.

(** The simulated world with a navigation that finds no path. *)
Definition lost_bridge : Bridge Sim.World :=
  mkBridge Sim.World
    Sim.entity Sim.heading (fun _ => Q2Qc (9 # 5))
    Sim.blockAt Sim.findInventoryItem (fun w => Sim.count_of (Sim.inventory w))
    Sim.canDigBlock
    Sim.equip Sim.placeBlock Sim.activateBlock Sim.activateItem Sim.dig
    Sim.lookAt Sim.chat Sim.wait
    (fun w _ _ _ => (w, inl (mkError (Some "No path to the goal!")))).

(** What a script needs of the file's placeOnBlock: it returns a boolean,
    leaves the frame it worked in as [bot.origin], and looks up the block
    at the resolved coordinate. *)
Definition place_shape {W} (B : Bridge W)
           (place : string -> coords -> Vec3.t -> option string -> M W value) : Prop :=
  forall itemName c dir fd (s : Bot W),
  exists b w' t,
    place itemName c dir fd s = (Normal (VBool b), mkBot w' (Some (frame B s)), t)
    /\ blockAt_queries t = [resolve (frame B s) c].

(** Two runs of a script that cannot be told apart: same completion,
    same events, same environment afterwards. *)
Definition same_script_run {W A} (r1 r2 : Completion A * Bot W * list ScriptEvent)
  : Prop :=
  sresult_of r1 = sresult_of r2
  /\ sevents_of r1 = sevents_of r2
  /\ world (sbot_of r1) = world (sbot_of r2).

(** A computation that neither reads nor writes [bot.origin]. *)
Definition origin_blind {W A} (m : Script W A) : Prop :=
  forall (w : W) (o1 o2 : option Origin),
  exists r w' t,
    m (mkBot w o1) = (r, mkBot w' o1, t) /\ m (mkBot w o2) = (r, mkBot w' o2, t).

(** A computation whose run does not depend on the [bot.origin] it
    starts with. *)
Definition origin_free {W A} (m : Script W A) : Prop :=
  forall (w : W) (o1 o2 : option Origin),
    same_script_run (m (mkBot w o1)) (m (mkBot w o2)).

(** * Properties *)

(** ** Running the monad *)

Section Running.

Context {W : Type} (B : Bridge W).

Lemma bot_eta (s : Bot W) : mkBot (world s) (origin s) = s.
Proof. destruct s; reflexivity. Qed.

Lemma bind_normal {A C} (m : M W A) (f : A -> M W C) s a s1 t1 :
  m s = (Normal a, s1, t1) ->
  bind m f s = (result_of (f a s1), bot_of (f a s1), t1 ++ events_of (f a s1)).
Proof.
  intros H. unfold bind. rewrite H.
  destruct (f a s1) as [[r s2] t2]. reflexivity.
Qed.

Lemma bind_abrupt {A C} (m : M W A) (f : A -> M W C) s e s1 t1 :
  m s = (Abrupt e, s1, t1) -> bind m f s = (Abrupt e, s1, t1).
Proof. intros H. unfold bind. rewrite H. reflexivity. Qed.

Lemma run_eta {A} (r : Completion A * Bot W * list Event) :
  r = (result_of r, bot_of r, events_of r).
Proof. destruct r as [[c s] t]. reflexivity. Qed.

(** *** Loops *)

Lemma for_each_total {A} (body : A -> M W unit) :
  (forall a s, exists s' t, body a s = (Normal tt, s', t)) ->
  forall l s, exists s' t, for_each body l s = (Normal tt, s', t).
Proof.
  intros Hb. induction l as [|a rest IH]; intros s.
  - exists s, []. reflexivity.
  - destruct (Hb a s) as (s1 & t1 & E1). destruct (IH s1) as (s2 & t2 & E2).
    cbn [for_each]. unfold bind. rewrite E1, E2. eauto.
Qed.

(** A loop whose body never throws runs over a concatenation as over
    the first part and then, from the bot it leaves, over the second. *)
Lemma for_each_app {A} (body : A -> M W unit) :
  (forall a s, exists s' t, body a s = (Normal tt, s', t)) ->
  forall l1 l2 s,
    for_each body (l1 ++ l2) s
    = (result_of (for_each body l2 (bot_of (for_each body l1 s))),
       bot_of (for_each body l2 (bot_of (for_each body l1 s))),
       events_of (for_each body l1 s)
       ++ events_of (for_each body l2 (bot_of (for_each body l1 s)))).
Proof.
  intros Hb. induction l1 as [|a rest IH]; intros l2 s.
  - cbn. apply run_eta.
  - cbn [app for_each]. unfold bind.
    destruct (Hb a s) as (s1 & t1 & E1). rewrite E1, IH.
    destruct (for_each_total body Hb rest s1) as (s2 & t2 & E2).
    rewrite E2. cbn. rewrite app_assoc. reflexivity.
Qed.

(** *** ensure_origin *)

Lemma ensure_origin_run notice s :
  ensure_origin B notice s
  = (Normal tt, mkBot (world s) (Some (frame B s)), origin_notice B notice s).
Proof.
  unfold ensure_origin, origin_notice, frame, bind, bot_origin, when.
  destruct s as [w [o|]]; reflexivity.
Qed.

Lemma origin_position_run (w : W) (o : Origin) :
  origin_position (mkBot w (Some o)) = (Normal (position o), mkBot w (Some o), []).
Proof. reflexivity. Qed.

Lemma origin_notice_silent notice s :
  blockAt_queries (origin_notice B notice s) = []
  /\ place_outcomes (origin_notice B notice s) = []
  /\ equip_calls (origin_notice B notice s) = []
  /\ lookAt_calls (origin_notice B notice s) = []
  /\ goTo_calls (origin_notice B notice s) = []
  /\ activate_calls (origin_notice B notice s) = []
  /\ dig_calls (origin_notice B notice s) = [].
Proof. unfold origin_notice. destruct (origin s); repeat split; reflexivity. Qed.

(** *** equipItem *)

Lemma equipItem_run itemName hand s :
  equipItem B itemName hand s
  = match get_findInventoryItem B (world s) itemName with
    | None => (Normal (VBool false), s,
               [CallFindInventoryItem itemName; Log (LNoItem itemName)])
    | Some item =>
        let '(w', r) := do_equip B (world s) item hand in
        (Normal (VBool (negb (is_object r))), mkBot w' (origin s),
         [CallFindInventoryItem itemName; CallEquip item hand r;
          Log (match r with
               | None => LEquipped itemName hand
               | Some e => LEquipError itemName hand e
               end)])
    end.
Proof.
  unfold equipItem, bind, try_catch, bot_findInventoryItem, bot_equip,
    fallible, log, emit, ret.
  destruct (get_findInventoryItem B (world s) itemName) as [item|]; [|reflexivity].
  destruct (do_equip B (world s) item hand) as [w' [e|]]; reflexivity.
Qed.

(** equipItem completes normally with a boolean, keeps [bot.origin],
    and performs no call other than the look-up and the equip. *)
Lemma equipItem_shape itemName hand s :
  exists b w' t,
    equipItem B itemName hand s = (Normal (VBool b), mkBot w' (origin s), t)
    /\ blockAt_queries t = [] /\ place_outcomes t = []
    /\ lookAt_calls t = [] /\ logs t <> [].
Proof.
  rewrite equipItem_run.
  destruct (get_findInventoryItem B (world s) itemName) as [item|].
  - destruct (do_equip B (world s) item hand) as [w' r].
    eexists _, _, _. split; [reflexivity|].
    repeat split; try reflexivity. discriminate.
  - eexists _, _, _. rewrite <- (bot_eta s) at 1. split; [reflexivity|].
    repeat split; try reflexivity. discriminate.
Qed.

End Running.

Section Placement.

Context {W : Type} (B : Bridge W).

(** *** Turning the head *)

Lemma face_shape fd (s : Bot W) :
  exists w' t,
    face B fd s = (Normal tt, mkBot w' (origin s), t)
    /\ blockAt_queries t = [] /\ place_outcomes t = []
    /\ equip_calls t = [].
Proof.
  destruct s as [w o]. unfold face. destruct fd as [fd|].
  - unfold when. destruct (truthy_string fd).
    + unfold bind, entity_position, entity_height, ret, log, emit, bot_lookAt, wait.
      repeat match goal with
             | |- context [String.eqb fd ?k] => destruct (String.eqb fd k)
             end;
        cbn; eexists _, _; (split; [reflexivity|]); repeat split.
    + exists w, []. repeat split.
  - exists w, []. repeat split.
Qed.

(** *** One placement attempt *)

Lemma place_attempt_run itemName block dir retry (s : Bot W) :
  place_attempt B itemName block dir retry s
  = let '(w', r) := do_placeBlock B (world s) block dir in
    (Normal (if transient_failure r then None else Some (VBool true)),
     mkBot w' (origin s),
     [CallPlaceBlock block dir r;
      Log (match r with
           | None => LPlaced itemName (block_position block) dir
           | Some e =>
               if benign e
               then LPlacedNoBlockUpdate itemName
                      (match message e with Some m => m | None => EmptyString end)
               else LAttemptFailed (retry + 1) itemName (message e)
           end)]).
Proof.
  unfold place_attempt, try_catch, bind, bot_placeBlock, fallible, log, emit, ret.
  destruct (do_placeBlock B (world s) block dir) as [w' [e|]]; cbn; [|reflexivity].
  destruct (benign e); reflexivity.
Qed.

(** *** The retry loop *)

Lemma place_loop_shape n itemName block dir : forall retry (s : Bot W),
  exists b w' t,
    place_loop B n itemName block dir retry s
    = (Normal (VBool b), mkBot w' (origin s), t)
    /\ attempts n (place_outcomes t) b
    /\ blockAt_queries t = []
    /\ (n <> O -> logs t <> []).
Proof.
  induction n as [|n IH]; intros retry s.
  - exists false, (world s), []. cbn. rewrite bot_eta.
    repeat split; [constructor | congruence].
  - cbn [place_loop]. unfold bind at 1. rewrite place_attempt_run.
    destruct (do_placeBlock B (world s) block dir) as [w1 r].
    destruct (transient_failure r) eqn:Hr.
    + destruct (IH (retry + 1) (mkBot w1 (origin s))) as (b & w' & t & E & Ha & Hq & _).
      cbn in E. rewrite E. cbn. eexists b, w', _. split; [reflexivity|].
      repeat split.
      * apply attempts_retry; assumption.
      * exact Hq.
      * discriminate.
    + cbn. eexists true, w1, _. split; [reflexivity|].
      repeat split; [apply attempts_done; assumption | discriminate].
Qed.

(** *** Shape of [attempts] *)

Lemma attempts_length n outs b : attempts n outs b -> (length outs <= n)%nat.
Proof. induction 1; cbn; lia. Qed.

Lemma attempts_nonempty n outs b : attempts (S n) outs b -> outs <> [].
Proof. inversion 1; discriminate. Qed.

Lemma attempts_prefix n outs b :
  attempts n outs b ->
  forall pre o post, outs = pre ++ o :: post ->
    forallb transient_failure pre = true.
Proof.
  induction 1 as [|n r Hr|n r rest b Hr Hrest IH]; intros pre o post E.
  - destruct pre; discriminate.
  - destruct pre as [|p [|q pre]]; try discriminate. reflexivity.
  - destruct pre as [|p pre]; [reflexivity|].
    cbn in E. injection E as -> E. cbn. rewrite Hr. cbn. eapply IH; eauto.
Qed.

Lemma attempts_final n outs b :
  attempts n outs b ->
  forall pre o post, outs = pre ++ o :: post ->
    transient_failure o = false -> post = [] /\ b = true.
Proof.
  induction 1 as [|n r Hr|n r rest b Hr Hrest IH]; intros pre o post E Ho.
  - destruct pre; discriminate.
  - destruct pre as [|p [|q pre]]; try discriminate.
    injection E as _ <-. auto.
  - destruct pre as [|p pre]; cbn in E; injection E as -> E.
    + congruence.
    + eapply IH; eauto.
Qed.

Lemma attempts_all_transient n outs b :
  attempts n outs b ->
  forallb transient_failure outs = true ->
  length outs = n /\ b = false.
Proof.
  induction 1 as [|n r Hr|n r rest b Hr Hrest IH]; cbn; intros H.
  - auto.
  - rewrite Hr in H. discriminate.
  - rewrite Hr in H. cbn in H. destruct (IH H). split; congruence.
Qed.

Lemma benign_not_transient o : benign_failure o = true -> transient_failure o = false.
Proof. destruct o as [e|]; cbn; [intros ->; reflexivity | discriminate]. Qed.

(** *** placeOnBlock, by cases *)

Lemma place_phase_run itemName block absX absY absZ dir (s : Bot W) :
  place_phase B itemName block absX absY absZ dir s
  = place_loop B maxRetries itemName block dir 0 s.
Proof.
  unfold place_phase, air_check, skipAirCheck, bind, ret. cbn.
  destruct (place_loop B maxRetries itemName block dir 0 s) as [[r s2] t2].
  reflexivity.
Qed.

End Placement.

Section PlaceCases.

Context {W : Type} (B : Bridge W).

Lemma rail_placeOnBlock_cases itemName c dir fd (s : Bot W) :
  let o := frame B s in
  let pos := resolve o c in
  let pre := origin_notice B LOriginNotSetCurrentCurrent s in
  match get_blockAt B (world s) pos with
  | None =>
      rail_placeOnBlock B itemName c dir fd s
      = (Normal (VBool false), mkBot (world s) (Some o),
         pre ++ [CallBlockAt pos;
                 Log (LNoSupportingBlock (Vec3.x pos) (Vec3.y pos) (Vec3.z pos)
                        itemName)])
  | Some block =>
      match get_findInventoryItem B (world s) itemName with
      | None =>
          rail_placeOnBlock B itemName c dir fd s
          = (Normal (VBool false), mkBot (world s) (Some o),
             pre ++ [CallBlockAt pos; CallFindInventoryItem itemName;
                     Log (LNoItem itemName); Log (LCannotEquip itemName)])
      | Some it =>
          match do_equip B (world s) it "hand" with
          | (w1, Some e) =>
              rail_placeOnBlock B itemName c dir fd s
              = (Normal (VBool false), mkBot w1 (Some o),
                 pre ++ [CallBlockAt pos; CallFindInventoryItem itemName;
                         CallEquip it "hand" (Some e);
                         Log (LEquipError itemName "hand" e);
                         Log (LCannotEquip itemName)])
          | (w1, None) =>
              exists w2 t2 b w3 t3,
                face B fd (mkBot w1 (Some o)) = (Normal tt, mkBot w2 (Some o), t2)
                /\ place_loop B maxRetries itemName block dir 0 (mkBot w2 (Some o))
                   = (Normal (VBool b), mkBot w3 (Some o), t3)
                /\ rail_placeOnBlock B itemName c dir fd s
                   = (Normal (VBool b), mkBot w3 (Some o),
                      pre ++ [CallBlockAt pos; CallFindInventoryItem itemName;
                              CallEquip it "hand" None;
                              Log (LEquipped itemName "hand")] ++ t2 ++ t3)
          end
      end
  end.
Proof.
  destruct c as [[x y] z]. cbn zeta. unfold resolve.
  unfold rail_placeOnBlock, bind.
  rewrite ensure_origin_run. cbn [origin_position origin world].
  unfold bot_blockAt. cbn [world].
  destruct (get_blockAt B (world s) _) as [block|]; [|reflexivity].
  rewrite equipItem_run. cbn [world origin].
  destruct (get_findInventoryItem B (world s) itemName) as [it|]; [|reflexivity].
  destruct (do_equip B (world s) it "hand") as [w1 [e|]]; [reflexivity|].
  cbn [negb is_object truthy].
  destruct (face_shape B fd (mkBot w1 (Some (frame B s)))) as (w2 & t2 & Ef & _).
  cbn [origin] in Ef. rewrite Ef, place_phase_run.
  destruct (place_loop_shape B maxRetries itemName block dir 0
              (mkBot w2 (Some (frame B s)))) as (b & w3 & t3 & El & _).
  cbn [origin] in El. rewrite El.
  exists w2, t2, b, w3, t3. repeat split; assumption.
Qed.

(** cane.js's version is rail.js's without a facing direction. *)
Lemma cane_placeOnBlock_rail itemName c dir (s : Bot W) :
  cane_placeOnBlock B itemName c dir s
  = rail_placeOnBlock B itemName c dir None s.
Proof.
  destruct c as [[x y] z].
  unfold cane_placeOnBlock, rail_placeOnBlock, face, bind.
  rewrite ensure_origin_run. cbn [origin_position origin world].
  unfold bot_blockAt. cbn [world].
  destruct (get_blockAt B (world s) _) as [block|]; [|reflexivity].
  rewrite equipItem_run. cbn [world origin].
  destruct (get_findInventoryItem B (world s) itemName) as [it|]; [|reflexivity].
  destruct (do_equip B (world s) it "hand") as [w1 [e|]]; [reflexivity|].
  cbn [negb is_object truthy ret].
  destruct (place_phase B itemName block _ _ _ dir _) as [[r s2] t2].
  reflexivity.
Qed.

End PlaceCases.

Section PlaceClaims.

Context {W : Type} (B : Bridge W).

Lemma place_outcomes_app a b :
  place_outcomes (a ++ b) = place_outcomes a ++ place_outcomes b.
Proof. apply flat_map_app. Qed.

Lemma blockAt_queries_app a b :
  blockAt_queries (a ++ b) = blockAt_queries a ++ blockAt_queries b.
Proof. apply flat_map_app. Qed.

Lemma equip_calls_app a b : equip_calls (a ++ b) = equip_calls a ++ equip_calls b.
Proof. apply flat_map_app. Qed.

Lemma lookAt_calls_app a b : lookAt_calls (a ++ b) = lookAt_calls a ++ lookAt_calls b.
Proof. apply flat_map_app. Qed.

Lemma goTo_calls_app a b : goTo_calls (a ++ b) = goTo_calls a ++ goTo_calls b.
Proof. apply flat_map_app. Qed.

Lemma activate_calls_app a b :
  activate_calls (a ++ b) = activate_calls a ++ activate_calls b.
Proof. apply flat_map_app. Qed.


Lemma chat_calls_app a b : chat_calls (a ++ b) = chat_calls a ++ chat_calls b.
Proof. apply flat_map_app. Qed.

(** A log line is no bridge call. *)
Lemma blockAt_queries_log m t : blockAt_queries (Log m :: t) = blockAt_queries t.
Proof. reflexivity. Qed.

Lemma lookAt_calls_log m t : lookAt_calls (Log m :: t) = lookAt_calls t.
Proof. reflexivity. Qed.

Lemma activate_calls_log m t : activate_calls (Log m :: t) = activate_calls t.
Proof. reflexivity. Qed.


Lemma chat_calls_log m t : chat_calls (Log m :: t) = chat_calls t.
Proof. reflexivity. Qed.

Lemma logs_app a b : logs (a ++ b) = logs a ++ logs b.
Proof. apply flat_map_app. Qed.

Lemma logs_nonempty_r a b : logs b <> [] -> logs (a ++ b) <> [].
Proof.
  rewrite logs_app. destruct (logs b); [congruence|].
  intros _ H. apply app_eq_nil in H. destruct H. discriminate.
Qed.

(** What every invocation of placeOnBlock amounts to. *)
Lemma rail_placeOnBlock_summary itemName c dir fd (s : Bot W) :
  exists b w' t,
    rail_placeOnBlock B itemName c dir fd s
    = (Normal (VBool b), mkBot w' (Some (frame B s)), t)
    /\ blockAt_queries t = [resolve (frame B s) c]
    /\ logs t <> []
    /\ if reaches_placement B itemName c s
       then attempts maxRetries (place_outcomes t) b
       else place_outcomes t = [] /\ b = false.
Proof.
  pose proof (rail_placeOnBlock_cases B itemName c dir fd s) as H.
  cbn zeta in H. unfold reaches_placement.
  destruct (origin_notice_silent B LOriginNotSetCurrentCurrent s)
    as (Nq & Np & _).
  destruct (get_blockAt B (world s) (resolve (frame B s) c)) as [block|].
  - destruct (get_findInventoryItem B (world s) itemName) as [it|].
    + destruct (do_equip B (world s) it "hand") as [w1 [e|]].
      * eexists _, _, _. split; [exact H|].
        rewrite blockAt_queries_app, place_outcomes_app, Nq, Np.
        repeat split. apply logs_nonempty_r. discriminate.
      * destruct H as (w2 & t2 & b & w3 & t3 & Ef & El & E).
        destruct (face_shape B fd (mkBot w1 (Some (frame B s))))
          as (w2' & t2' & Ef' & Fq & Fp & _).
        rewrite Ef in Ef'. injection Ef' as <- <-.
        destruct (place_loop_shape B maxRetries itemName block dir 0
                    (mkBot w2 (Some (frame B s))))
          as (b' & w3' & t3' & El' & Ha & Lq & Ll).
        rewrite El in El'. injection El' as <- <- <-.
        eexists _, _, _. split; [exact E|].
        rewrite !blockAt_queries_app, !place_outcomes_app, Nq, Np, Fq, Fp, Lq.
        repeat split.
        -- rewrite app_assoc, app_assoc. apply logs_nonempty_r. apply Ll. discriminate.
        -- exact Ha.
    + eexists _, _, _. split; [exact H|].
      rewrite blockAt_queries_app, place_outcomes_app, Nq, Np.
      repeat split. apply logs_nonempty_r. discriminate.
  - eexists _, _, _. split; [exact H|].
    rewrite blockAt_queries_app, place_outcomes_app, Nq, Np.
    repeat split. apply logs_nonempty_r. discriminate.
Qed.

(** C2.  An invocation of placeOnBlock that reaches the placement phase
    calls [bot.placeBlock] at least once and at most 3 times; an attempt
    is made only after every earlier one failed with a non-benign error;
    an attempt that throws the benign "blockUpdate" error, or that
    succeeds, is the last one and the function returns [true]; when
    every attempt throws a non-benign error there were 3 of them and
    the function returns [false].  cane.js's version is rail.js's
    without facing direction. *)
Theorem placeOnBlock_retry_policy itemName c dir fd (s : Bot W) :
  reaches_placement B itemName c s = true ->
  let run := rail_placeOnBlock B itemName c dir fd s in
  let outs := place_outcomes (events_of run) in
  (1 <= length outs <= 3)%nat
  /\ (forall pre o post, outs = pre ++ o :: post ->
        forallb transient_failure pre = true)
  /\ (forall pre o post, outs = pre ++ o :: post -> benign_failure o = true ->
        post = [] /\ result_of run = Normal (VBool true))
  /\ (forall pre post, outs = pre ++ None :: post ->
        post = [] /\ result_of run = Normal (VBool true))
  /\ (forallb transient_failure outs = true ->
        length outs = 3%nat /\ result_of run = Normal (VBool false))
  /\ cane_placeOnBlock B itemName c dir s
     = rail_placeOnBlock B itemName c dir None s.
Proof.
  intros Hreach run outs.
  destruct (rail_placeOnBlock_summary itemName c dir fd s)
    as (b & w' & t & E & _ & _ & Ha).
  rewrite Hreach in Ha.
  assert (Hout : outs = place_outcomes t) by (unfold outs, run; rewrite E; reflexivity).
  assert (Hres : result_of run = Normal (VBool b)) by (unfold run; rewrite E; reflexivity).
  rewrite Hres, Hout. clear Hout Hres E.
  split; [|split; [|split; [|split; [|split]]]].
  - pose proof (attempts_length _ _ _ Ha) as Hl.
    pose proof (attempts_nonempty _ _ _ Ha) as Hn.
    unfold maxRetries in Hl.
    destruct (place_outcomes t); [congruence | cbn in *; lia].
  - intros pre o post Eo. eapply attempts_prefix; eauto.
  - intros pre o post Eo Ho.
    destruct (attempts_final _ _ _ Ha pre o post Eo (benign_not_transient o Ho)).
    subst. auto.
  - intros pre post Eo.
    destruct (attempts_final _ _ _ Ha pre None post Eo eq_refl).
    subst. auto.
  - intros Hall. destruct (attempts_all_transient _ _ _ Ha Hall) as [Hl ->].
    auto.
  - apply cane_placeOnBlock_rail.
Qed.

End PlaceClaims.

(** The first hopper of the cane machine (cane.js line 249) reaches the
    placement phase in the simulated world. *)
Lemma placeOnBlock_retry_policy_witness :
  reaches_placement Sim.bridge "hopper" (num 0, num 0, num 2) Sim.ready = true
  /\ let run := rail_placeOnBlock Sim.bridge "hopper" (num 0, num 0, num 2)
                  (Vec3.mk (num 0) (num 0) (num (-1))) None Sim.ready in
     (1 <= length (place_outcomes (events_of run)) <= 3)%nat.
Proof.
  split; [reflexivity|].
  apply (placeOnBlock_retry_policy Sim.bridge "hopper" (num 0, num 0, num 2)
           (Vec3.mk (num 0) (num 0) (num (-1))) None Sim.ready).
  reflexivity.
Defined.

Section OtherHelpers.

Context {W : Type} (B : Bridge W).

(** *** toggleBlock *)

Lemma toggleBlock_run blockType x y z (s : Bot W) :
  let o := frame B s in
  let pos := Vec3.floored (resolve o (x, y, z)) in
  let pre := Log (LToggleAttempt blockType x y z) :: origin_notice B LOriginNotSet s in
  toggleBlock B blockType x y z s
  = match get_blockAt B (world s) pos with
    | Some b =>
        if String.eqb (block_name b) blockType then
          let '(w', r) := do_activateBlock B (world s) b in
          (Normal VUndefined, mkBot w' (Some o),
           pre ++ [CallBlockAt pos; CallActivateBlock b r;
                   Log (match r with
                        | None => LActivated blockType pos
                        | Some e => LActivateError pos (message e)
                        end)])
        else
          (Normal VUndefined, mkBot (world s) (Some o),
           pre ++ [CallBlockAt pos;
                   Log (LToggleNotFound blockType x y z pos
                          (name_or (Some b) "nothing"))])
    | None =>
        (Normal VUndefined, mkBot (world s) (Some o),
         pre ++ [CallBlockAt pos;
                 Log (LToggleNotFound blockType x y z pos "nothing")])
    end.
Proof.
  cbn zeta. unfold resolve.
  unfold toggleBlock, bind, log, emit.
  rewrite ensure_origin_run. cbn [origin_position origin world].
  unfold bot_blockAt. cbn [world].
  destruct (get_blockAt B (world s) _) as [b|]; [|reflexivity].
  destruct (String.eqb (block_name b) blockType); [|reflexivity].
  unfold try_catch, bind, bot_activateBlock, fallible, ret. cbn [world origin].
  destruct (do_activateBlock B (world s) b) as [w' [e|]]; reflexivity.
Qed.

(** *** dig *)

Lemma dig_offset_run o offset (s : Bot W) :
  let pos := pos_to_dig o offset in
  dig_offset B o offset s
  = match get_blockAt B (world s) pos with
    | Some b =>
        if get_canDigBlock B (world s) b && negb (String.eqb (block_name b) "air")
        then
          let '(w', r) := do_dig B (world s) b in
          (Normal tt, mkBot w' (origin s),
           [CallBlockAt pos; CallCanDigBlock b;
            Log (LDigging (fst (fst offset)) (snd (fst offset)) (snd offset) pos);
            CallDig b r]
           ++ match r with
              | None => []
              | Some e => [Log (LCouldNotDig pos (message e))]
              end)
        else
          (Normal tt, s,
           [CallBlockAt pos; CallCanDigBlock b;
            Log (LCannotDig pos (name_or (Some b) "out of sight"))])
    | None =>
        (Normal tt, s, [CallBlockAt pos; Log (LCannotDig pos "out of sight")])
    end.
Proof.
  destruct offset as [[rx ry] rz]. cbn zeta.
  unfold dig_offset, bind, bot_blockAt, diggable.
  destruct (get_blockAt B (world s) _) as [b|]; [|reflexivity].
  unfold bind, bot_canDigBlock, ret.
  destruct (get_canDigBlock B (world s) b && negb (String.eqb (block_name b) "air"));
    [|reflexivity].
  unfold log, emit, try_catch, bot_dig, fallible.
  destruct (do_dig B (world s) b) as [w' [e|]]; reflexivity.
Qed.

(** One offset never throws, keeps [bot.origin] and asks for exactly
    its own cell. *)
Lemma dig_offset_shape o offset (s : Bot W) :
  exists w' t,
    dig_offset B o offset s = (Normal tt, mkBot w' (origin s), t)
    /\ blockAt_queries t = [pos_to_dig o offset]
    /\ place_outcomes t = [] /\ logs t <> [].
Proof.
  rewrite dig_offset_run. cbn zeta.
  destruct (get_blockAt B (world s) _) as [b|].
  - destruct (get_canDigBlock B (world s) b && negb (String.eqb (block_name b) "air")).
    + destruct (do_dig B (world s) b) as [w' [e|]];
        eexists _, _; (split; [reflexivity|]); repeat split; discriminate.
    + exists (world s). eexists. rewrite bot_eta.
      split; [reflexivity|]. repeat split; discriminate.
  - exists (world s). eexists. rewrite bot_eta.
    split; [reflexivity|]. repeat split; discriminate.
Qed.

Lemma dig_loop_shape o l : forall (s : Bot W),
  exists w' t,
    dig_loop B o l s = (Normal tt, mkBot w' (origin s), t)
    /\ blockAt_queries t = map (pos_to_dig o) l
    /\ place_outcomes t = [].
Proof.
  unfold dig_loop.
  induction l as [|offset rest IH]; intros s.
  - exists (world s), []. rewrite bot_eta. repeat split.
  - destruct (dig_offset_shape o offset s) as (w1 & t1 & E1 & Q1 & P1 & _).
    destruct (IH (mkBot w1 (origin s))) as (w2 & t2 & E2 & Q2 & P2).
    cbn [for_each]. unfold bind. rewrite E1, E2.
    eexists _, _. split; [reflexivity|].
    rewrite blockAt_queries_app, place_outcomes_app, Q1, Q2, P1, P2.
    split; reflexivity.
Qed.

Lemma dig_offset_total o offset (s : Bot W) :
  exists s' t, dig_offset B o offset s = (Normal tt, s', t).
Proof.
  destruct (dig_offset_shape o offset s) as (w' & t & E & _). eauto.
Qed.

Lemma dig_run blocks_to_dig (s : Bot W) :
  let o := frame B s in
  let s0 := mkBot (world s) (Some o) in
  dig B blocks_to_dig s
  = (Normal VUndefined,
     bot_of (dig_loop B (position o) blocks_to_dig s0),
     Log LDigStart :: origin_notice B LOriginNotSet s
     ++ events_of (dig_loop B (position o) blocks_to_dig s0)).
Proof.
  cbn zeta. unfold dig, bind, log, emit.
  rewrite ensure_origin_run. cbn [origin_position origin world].
  destruct (dig_loop_shape (position (frame B s)) blocks_to_dig
              (mkBot (world s) (Some (frame B s)))) as (w' & t & E & _).
  rewrite E. cbn. rewrite app_nil_r. reflexivity.
Qed.

End OtherHelpers.

Section MoreHelpers.

Context {W : Type} (B : Bridge W).

(** *** pourWaterInHole *)

Lemma pourWaterInHole_run dx dy dz (s : Bot W) :
  let o := frame B s in
  let target := lookAtPoint (position o) dx dy dz in
  let pre := Log (LPouring dx dy dz) :: origin_notice B LOriginNotSet s in
  pourWaterInHole B dx dy dz s
  = match get_findInventoryItem B (world s) "water_bucket" with
    | None =>
        (Normal (VBool false), mkBot (world s) (Some o),
         pre ++ [CallFindInventoryItem "water_bucket"; Log (LNoItem "water_bucket");
                 Log LCannotEquipWaterBucket])
    | Some it =>
        let '(w1, r) := do_equip B (world s) it "hand" in
        match r with
        | Some e =>
            (Normal (VBool false), mkBot w1 (Some o),
             pre ++ [CallFindInventoryItem "water_bucket";
                     CallEquip it "hand" (Some e);
                     Log (LEquipError "water_bucket" "hand" e);
                     Log LCannotEquipWaterBucket])
        | None =>
            let w2 := do_wait B (do_lookAt B w1 target) 200 in
            let '(w3, r3) := do_activateItem B w2 in
            let common :=
              [CallFindInventoryItem "water_bucket"; CallEquip it "hand" None;
               Log (LEquipped "water_bucket" "hand"); Log LEquippedWaterBucket;
               Log (LLookingAtTarget target); CallLookAt target; CallWait 200;
               CallActivateItem r3] in
            match r3 with
            | None =>
                (Normal (VBool true), mkBot (do_wait B w3 1000) (Some o),
                 pre ++ common ++ [Log LPoured; CallWait 1000])
            | Some e =>
                (Normal (VBool false), mkBot w3 (Some o),
                 pre ++ common ++ [Log (LPourError e)])
            end
        end
    end.
Proof.
  cbn zeta.
  unfold pourWaterInHole, bind, log, emit.
  rewrite ensure_origin_run. cbn [origin_position origin_yaw origin world].
  unfold try_catch, bind. rewrite equipItem_run. cbn [world origin].
  destruct (get_findInventoryItem B (world s) "water_bucket") as [it|]; [|reflexivity].
  destruct (do_equip B (world s) it "hand") as [w1 [e|]]; [reflexivity|].
  cbn [negb is_object truthy].
  unfold bot_lookAt, wait, bot_activateItem, fallible, ret. cbn [world origin].
  destruct (do_activateItem B _) as [w3 [e|]]; reflexivity.
Qed.

(** *** walkTo *)

Lemma walkTo_run dx dy dz (s : Bot W) :
  let o := frame B s in
  let target := resolve o (dx, dy, dz) in
  walkTo B dx dy dz s
  = let '(w', r) := do_goToPosition B (world s) (Vec3.x target) (Vec3.y target)
                      (Vec3.z target) in
    (match r with inr b => Normal (VBool b) | inl e => Abrupt e end,
     mkBot w' (Some o),
     origin_notice B LOriginNotSet s
     ++ [Log (LGoing dx dy dz target);
         CallGoToPosition (Vec3.x target) (Vec3.y target) (Vec3.z target) r]).
Proof.
  cbn zeta. unfold resolve.
  unfold walkTo, bind, log, emit.
  rewrite ensure_origin_run. cbn [origin_position origin world].
  unfold goToPosition. cbn [world origin Vec3.x Vec3.y Vec3.z].
  destruct (do_goToPosition B (world s) _ _ _) as [w' [e|b]]; reflexivity.
Qed.

(** *** acquireItems *)

Lemma acquire_item_run itemName requiredAmount (s : Bot W) :
  let currentAmount := or_zero (get_inventoryCounts B (world s) itemName) in
  acquire_item B itemName requiredAmount s
  = if currentAmount <? requiredAmount then
      let amountToGive := requiredAmount - currentAmount in
      (Normal tt,
       mkBot (do_wait B (do_chat B (world s) (give_command itemName amountToGive)) 200)
             (origin s),
       [CallGetInventoryCounts;
        Log (LGiving currentAmount itemName requiredAmount amountToGive);
        CallChat (give_command itemName amountToGive); CallWait 200])
    else
      (Normal tt, s, [CallGetInventoryCounts; Log (LEnough itemName)]).
Proof.
  cbn zeta. unfold acquire_item, bind, world_getInventoryCounts.
  destruct (or_zero (get_inventoryCounts B (world s) itemName) <? requiredAmount);
    reflexivity.
Qed.

Lemma acquire_item_total (entry : string * Z) (s : Bot W) :
  exists s' t, acquire_item B (fst entry) (snd entry) s = (Normal tt, s', t).
Proof.
  rewrite acquire_item_run. cbn zeta.
  destruct (_ <? _); eauto.
Qed.

Lemma acquireItems_run requiredItems (s : Bot W) :
  acquireItems B requiredItems s
  = (Normal (VBool true),
     bot_of (acquire_loop B requiredItems s),
     Log LChecking :: events_of (acquire_loop B requiredItems s)
     ++ [Log LFinishedAcquiring]).
Proof.
  unfold acquireItems, bind, log, emit, ret.
  destruct (for_each_total (fun entry => acquire_item B (fst entry) (snd entry))
              acquire_item_total requiredItems s) as (s' & t & E).
  unfold acquire_loop. rewrite E. reflexivity.
Qed.

End MoreHelpers.

Section CoordinateClaims.

Context {W : Type} (B : Bridge W).

Lemma num_0 : num 0 = 0%Qc.
Proof. reflexivity. Qed.

Lemma num_1 : num 1 = 1%Qc.
Proof. reflexivity. Qed.

Lemma num_m1 : num (-1) = (- (1))%Qc.
Proof. apply Qc_is_canon. reflexivity. Qed.

(** The chain of vector additions of pourWaterInHole is [resolve]. *)
Lemma lookAtPoint_resolve o dx dy dz :
  lookAtPoint (position o) dx dy dz = resolve o (dx, dy, dz).
Proof.
  unfold lookAtPoint, resolve, Vec3.add, Vec3.plus, Vec3.scaled, Vec3.clone,
    rightVec, forwardVec.
  cbn [Vec3.x Vec3.y Vec3.z]. rewrite num_m1, num_0, num_1.
  f_equal; ring.
Qed.

Lemma pos_to_dig_resolve o c :
  pos_to_dig (position o) c = Vec3.floored (resolve o c).
Proof. destruct c as [[x y] z]. reflexivity. Qed.

Lemma dig_queries blocks_to_dig (s : Bot W) :
  blockAt_queries (events_of (dig B blocks_to_dig s))
  = map (fun c => Vec3.floored (resolve (frame B s) c)) blocks_to_dig.
Proof.
  destruct (origin_notice_silent B LOriginNotSet s) as (Nq & _).
  rewrite dig_run. cbn zeta. unfold events_of at 1. cbn [snd].
  destruct (dig_loop_shape B (position (frame B s)) blocks_to_dig
              (mkBot (world s) (Some (frame B s)))) as (w' & t & E & Q & _).
  rewrite E. unfold events_of. cbn [snd].
  repeat (rewrite blockAt_queries_app || rewrite blockAt_queries_log).
  rewrite Nq, Q. cbn [app].
  apply map_ext. intros c. apply pos_to_dig_resolve.
Qed.

(** C1.  With [(ox, oy, oz)] the position of the origin frame, an
    offset [(r, u, f)] resolves to [(ox + r, oy + u, oz - f)], and every
    helper that resolves offsets uses this mapping: placeOnBlock looks
    up the block at the resolved coordinate, walkTo navigates to it,
    pourWaterInHole looks at it, toggleBlock and dig look up the block
    at its floored cell (dig: one cell per offset, in order). *)
Theorem resolve_applied_by_every_helper (s : Bot W) :
  let o := frame B s in
  (forall r u f,
      resolve o (r, u, f)
      = Vec3.mk (Vec3.x (position o) + r)%Qc (Vec3.y (position o) + u)%Qc
                (Vec3.z (position o) - f)%Qc)
  /\ (forall itemName c dir,
        blockAt_queries (events_of (cane_placeOnBlock B itemName c dir s))
        = [resolve o c])
  /\ (forall itemName c dir fd,
        blockAt_queries (events_of (rail_placeOnBlock B itemName c dir fd s))
        = [resolve o c])
  /\ (forall dx dy dz,
        goTo_calls (events_of (walkTo B dx dy dz s)) = [resolve o (dx, dy, dz)])
  /\ (forall blockType x y z,
        blockAt_queries (events_of (toggleBlock B blockType x y z s))
        = [Vec3.floored (resolve o (x, y, z))])
  /\ (forall blocks_to_dig,
        blockAt_queries (events_of (dig B blocks_to_dig s))
        = map (fun c => Vec3.floored (resolve o c)) blocks_to_dig)
  /\ (forall dx dy dz,
        lookAtPoint (position o) dx dy dz = resolve o (dx, dy, dz)
        /\ lookAt_calls (events_of (pourWaterInHole B dx dy dz s))
           = match get_findInventoryItem B (world s) "water_bucket" with
             | Some it =>
                 match snd (do_equip B (world s) it "hand") with
                 | None => [resolve o (dx, dy, dz)]
                 | Some _ => []
                 end
             | None => []
             end).
Proof.
  cbn zeta.
  assert (Hrail : forall itemName c dir fd,
             blockAt_queries (events_of (rail_placeOnBlock B itemName c dir fd s))
             = [resolve (frame B s) c]).
  { intros. destruct (rail_placeOnBlock_summary B itemName c dir fd s)
      as (b & w' & t & E & Q & _). rewrite E. exact Q. }
  split; [reflexivity|].
  split; [intros; rewrite cane_placeOnBlock_rail; apply Hrail|].
  split; [exact Hrail|].
  destruct (origin_notice_silent B LOriginNotSet s)
    as (Nq & Np & Ne & Nl & Ng & Na & Nd).
  split; [|split; [|split]].
  - intros. rewrite walkTo_run. cbn zeta.
    destruct (do_goToPosition B (world s) _ _ _) as [w' r].
    unfold events_of. cbn [snd]. rewrite goTo_calls_app, Ng.
    unfold resolve. reflexivity.
  - intros. rewrite toggleBlock_run. cbn zeta.
    destruct (get_blockAt B (world s) _) as [b|];
      [destruct (String.eqb (block_name b) blockType);
       [destruct (do_activateBlock B (world s) b) as [w' r]|]|];
      unfold events_of; cbn [snd];
      repeat (rewrite blockAt_queries_app || rewrite blockAt_queries_log);
      rewrite Nq; reflexivity.
  - intros. apply dig_queries.
  - intros. split; [apply lookAtPoint_resolve|].
    rewrite pourWaterInHole_run. cbn zeta. rewrite lookAtPoint_resolve.
    destruct (get_findInventoryItem B (world s) "water_bucket") as [it|];
      [destruct (do_equip B (world s) it "hand") as [w1 [e|]];
       [|destruct (do_activateItem B _) as [w3 [e|]]]|];
      unfold events_of; cbn [snd];
      repeat (rewrite lookAt_calls_app || rewrite lookAt_calls_log);
      rewrite Nl; reflexivity.
Qed.

End CoordinateClaims.

Section FaultClaims.

Context {W : Type} (B : Bridge W).

Lemma last_app_r {A} (l1 l2 : list A) d :
  l2 <> [] -> last (l1 ++ l2) d = last l2 d.
Proof.
  intros H. induction l1 as [|a l1 IH]; [reflexivity|].
  cbn [app]. rewrite <- IH.
  destruct (l1 ++ l2) eqn:E; [|reflexivity].
  apply app_eq_nil in E. destruct E. contradiction.
Qed.

(** C3.  equipItem always completes normally with a boolean.  When the
    item is not in the inventory it returns [false], logs it, calls
    nothing else and leaves the bot as it was; when it is, it calls
    [bot.equip] once with that item and returns [true] if the call
    resolves and [false], with the error logged, if it throws. *)
Theorem equipItem_never_raises itemName hand (s : Bot W) :
  let run := equipItem B itemName hand s in
  (exists b, result_of run = Normal (VBool b))
  /\ match get_findInventoryItem B (world s) itemName with
     | None =>
         run = (Normal (VBool false), s,
                [CallFindInventoryItem itemName; Log (LNoItem itemName)])
     | Some item =>
         equip_calls (events_of run) = [(item, hand)]
         /\ bot_of run = mkBot (fst (do_equip B (world s) item hand)) (origin s)
         /\ match snd (do_equip B (world s) item hand) with
            | None =>
                result_of run = Normal (VBool true)
                /\ logs (events_of run) = [LEquipped itemName hand]
            | Some e =>
                result_of run = Normal (VBool false)
                /\ logs (events_of run) = [LEquipError itemName hand e]
            end
     end.
Proof.
  cbn zeta. rewrite equipItem_run.
  destruct (get_findInventoryItem B (world s) itemName) as [item|].
  - destruct (do_equip B (world s) item hand) as [w' [e|]]; cbn;
      (split; [eexists; reflexivity|]); repeat split.
  - split; [eexists; reflexivity | reflexivity].
Qed.

(** C5.  When no block is found at the resolved coordinate, placeOnBlock
    returns [false] after the look-up and the diagnostic: no equip, no
    placement attempt, the environment untouched.  When a block is found
    but equipItem - run on the bot the origin guard leaves - returns
    [false], placeOnBlock returns [false] with [Cannot equip] logged and
    without any placement attempt. *)
Theorem placeOnBlock_fails_without_attempt itemName c dir fd (s : Bot W) :
  let run := rail_placeOnBlock B itemName c dir fd s in
  let pos := resolve (frame B s) c in
  (get_blockAt B (world s) pos = None ->
     run = (Normal (VBool false), mkBot (world s) (Some (frame B s)),
            origin_notice B LOriginNotSetCurrentCurrent s
            ++ [CallBlockAt pos;
                Log (LNoSupportingBlock (Vec3.x pos) (Vec3.y pos) (Vec3.z pos)
                       itemName)])
     /\ place_outcomes (events_of run) = []
     /\ equip_calls (events_of run) = [])
  /\ (get_blockAt B (world s) pos <> None ->
      result_of (equipItem B itemName "hand" (mkBot (world s) (Some (frame B s))))
    = Normal (VBool false) ->
      result_of run = Normal (VBool false)
      /\ place_outcomes (events_of run) = []
      /\ last (events_of run) (Log LChecking) = Log (LCannotEquip itemName))
  /\ cane_placeOnBlock B itemName c dir s = rail_placeOnBlock B itemName c dir None s.
Proof.
  cbn zeta.
  pose proof (rail_placeOnBlock_cases B itemName c dir fd s) as H. cbn zeta in H.
  destruct (origin_notice_silent B LOriginNotSetCurrentCurrent s)
    as (Nq & Np & Ne & _).
  split; [|split].
  - intros Hnone. rewrite Hnone in H. rewrite H. split; [reflexivity|].
    unfold events_of. cbn [snd].
    rewrite place_outcomes_app, equip_calls_app, Np, Ne. split; reflexivity.
  - intros Hsome Hequip. rewrite equipItem_run in Hequip. cbn [world] in Hequip.
    destruct (get_blockAt B (world s) (resolve (frame B s) c)) as [block|];
      [|congruence].
    destruct (get_findInventoryItem B (world s) itemName) as [it|].
    + destruct (do_equip B (world s) it "hand") as [w1 [e|]].
      * rewrite H. unfold events_of, result_of. cbn [fst snd].
        rewrite place_outcomes_app, Np, last_app_r by discriminate. repeat split.
      * discriminate Hequip.
    + rewrite H. unfold events_of, result_of. cbn [fst snd].
      rewrite place_outcomes_app, Np, last_app_r by discriminate. repeat split.
  - apply cane_placeOnBlock_rail.
Qed.

End FaultClaims.

(** In the simulated world nothing is loaded below height 0, and the bot
    carries no diamond. *)
Lemma placeOnBlock_fails_without_attempt_witness :
  (get_blockAt Sim.bridge Sim.start
     (resolve (frame Sim.bridge Sim.ready) (num 0, num (-70), num 1)) = None
   /\ result_of (rail_placeOnBlock Sim.bridge "hopper" (num 0, num (-70), num 1)
                   default_directionVec None Sim.ready) = Normal (VBool false))
  /\ (get_blockAt Sim.bridge Sim.start
        (resolve (frame Sim.bridge Sim.ready) (num 0, num (-1), num 1)) <> None
      /\ result_of (equipItem Sim.bridge "diamond" "hand" Sim.ready)
         = Normal (VBool false)
      /\ place_outcomes
           (events_of (rail_placeOnBlock Sim.bridge "diamond" (num 0, num (-1), num 1)
                         default_directionVec None Sim.ready)) = []).
Proof.
  split.
  - split; [reflexivity|].
    pose proof (proj1 (placeOnBlock_fails_without_attempt Sim.bridge "hopper"
                         (num 0, num (-70), num 1) default_directionVec None
                         Sim.ready) eq_refl) as H.
    cbv zeta in H. rewrite (proj1 H). reflexivity.
  - assert (Hb : get_blockAt Sim.bridge Sim.start
                   (resolve (frame Sim.bridge Sim.ready) (num 0, num (-1), num 1))
                 <> None) by (vm_compute; discriminate).
    split; [exact Hb|]. split; [reflexivity|].
    exact (proj1 (proj2 (proj1 (proj2 (placeOnBlock_fails_without_attempt
                                         Sim.bridge "diamond"
                                         (num 0, num (-1), num 1)
                                         default_directionVec None Sim.ready))
                           Hb eq_refl))).
Defined.

Section ToggleAndFaults.

Context {W : Type} (B : Bridge W).

Lemma floored_is_cell p :
  exists cx cy cz, Vec3.floored p = Vec3.mk (num cx) (num cy) (num cz).
Proof. unfold Vec3.floored, floor. eauto. Qed.

(** C8.  toggleBlock looks up the block at the resolved coordinate
    floored to an integer cell and returns without a value.  It calls
    [bot.activateBlock] - once, on that block - exactly when a block is
    there and its name equals the expected type.  Otherwise it makes
    no activation call, leaves the environment untouched and logs what
    it found.  An activation that throws is logged, and there is no
    second call. *)
Theorem toggleBlock_activates_iff_match blockType x y z (s : Bot W) :
  let run := toggleBlock B blockType x y z s in
  let pos := Vec3.floored (resolve (frame B s) (x, y, z)) in
  blockAt_queries (events_of run) = [pos]
  /\ (exists cx cy cz, pos = Vec3.mk (num cx) (num cy) (num cz))
  /\ result_of run = Normal VUndefined
  /\ (activate_calls (events_of run) <> []
      <-> exists b, get_blockAt B (world s) pos = Some b
                    /\ block_name b = blockType)
  /\ match get_blockAt B (world s) pos with
     | Some b =>
         if String.eqb (block_name b) blockType then
           activate_calls (events_of run) = [b]
           /\ world (bot_of run) = fst (do_activateBlock B (world s) b)
           /\ last (events_of run) (Log LChecking)
              = Log (match snd (do_activateBlock B (world s) b) with
                     | None => LActivated blockType pos
                     | Some e => LActivateError pos (message e)
                     end)
         else
           activate_calls (events_of run) = []
           /\ world (bot_of run) = world s
           /\ last (events_of run) (Log LChecking)
              = Log (LToggleNotFound blockType x y z pos (name_or (Some b) "nothing"))
     | None =>
         activate_calls (events_of run) = []
         /\ world (bot_of run) = world s
         /\ last (events_of run) (Log LChecking)
            = Log (LToggleNotFound blockType x y z pos "nothing")
     end.
Proof.
  cbn zeta. rewrite toggleBlock_run. cbn zeta.
  destruct (origin_notice_silent B LOriginNotSet s)
    as (Nq & Np & Ne & Nl & Ng & Na & Nd).
  split; [|split; [apply floored_is_cell|]].
  - destruct (get_blockAt B (world s) _) as [b|];
      [destruct (String.eqb (block_name b) blockType);
       [destruct (do_activateBlock B (world s) b) as [w' r]|]|];
      unfold events_of; cbn [snd];
      repeat (rewrite blockAt_queries_app || rewrite blockAt_queries_log);
      rewrite Nq; reflexivity.
  - destruct (get_blockAt B (world s) _) as [b|].
    + destruct (String.eqb_spec (block_name b) blockType) as [Hn|Hn].
      * destruct (do_activateBlock B (world s) b) as [w' r].
        unfold events_of, result_of, bot_of. cbn [fst snd world].
        repeat (rewrite activate_calls_app || rewrite activate_calls_log).
        rewrite Na, last_app_r by discriminate. cbn [app activate_calls flat_map].
        split; [reflexivity|]. split.
        -- split; [intros _; eauto | discriminate].
        -- repeat split.
      * unfold events_of, result_of, bot_of. cbn [fst snd world].
        repeat (rewrite activate_calls_app || rewrite activate_calls_log).
        rewrite Na, last_app_r by discriminate. cbn [app activate_calls flat_map].
        split; [reflexivity|]. split.
        -- split; [congruence|]. intros (b' & Hb' & Hn'). congruence.
        -- repeat split.
    + unfold events_of, result_of, bot_of. cbn [fst snd world].
      repeat (rewrite activate_calls_app || rewrite activate_calls_log).
      rewrite Na, last_app_r by discriminate. cbn [app activate_calls flat_map].
      split; [reflexivity|]. split.
      * split; [congruence|]. intros (b' & Hb' & _). discriminate.
      * repeat split.
Qed.

Lemma logs_cons_log m t : logs (Log m :: t) <> [].
Proof. discriminate. Qed.

(** C4 (as the code has it).  Every primitive completes normally - no
    error thrown by the bridge leaves it - and writes at least one log
    line.  placeOnBlock, pourWaterInHole and equipItem return a
    boolean; dig and toggleBlock have no return value and resolve to
    [undefined]. *)
Theorem primitives_catch_their_faults (p : Primitive) (s : Bot W) :
  exists v,
    result_of (run_primitive B p s) = Normal v
    /\ is_bool v = returns_a_value p
    /\ logs (events_of (run_primitive B p s)) <> [].
Proof.
  destruct p as [itemName c dir fd | blocks_to_dig | blockType x y z
                | dx dy dz | itemName hand]; cbn [run_primitive returns_a_value].
  - destruct (rail_placeOnBlock_summary B itemName c dir fd s)
      as (b & w' & t & E & _ & Hl & _).
    rewrite E. exists (VBool b). repeat split. exact Hl.
  - rewrite dig_run. cbn zeta. exists VUndefined. repeat split.
    apply logs_cons_log.
  - rewrite toggleBlock_run. cbn zeta. exists VUndefined.
    destruct (get_blockAt B (world s) _) as [b|];
      [destruct (String.eqb (block_name b) blockType);
       [destruct (do_activateBlock B (world s) b) as [w' r]|]|];
      repeat split; apply logs_cons_log.
  - rewrite pourWaterInHole_run. cbn zeta.
    destruct (get_findInventoryItem B (world s) "water_bucket") as [it|];
      [destruct (do_equip B (world s) it "hand") as [w1 [e|]];
       [|destruct (do_activateItem B _) as [w3 [e|]]]|];
      eexists; (split; [reflexivity|]); split; try reflexivity;
      apply logs_cons_log.
  - destruct (equipItem_shape B itemName hand s) as (b & w' & t & E & _ & _ & _ & Hl).
    rewrite E. exists (VBool b). repeat split. exact Hl.
Qed.

End ToggleAndFaults.

(** C4 as stated fails: toggling the lever of the rail machine
    (rail.js line 351) in the simulated world resolves to [undefined],
    not to a boolean. *)
Lemma toggleBlock_returns_no_boolean :
  ~ boolean_outcome_with_log Sim.bridge
      (PToggle "lever" (num 1) (num 0) (num 2)) Sim.ready.
Proof.
  intros [[b Hb] _]. vm_compute in Hb. discriminate Hb.
Qed.

Section BatchClaims.

Context {W : Type} (B : Bridge W).

(** A loop over [before ++ a :: after], cut at [a]. *)
Lemma for_each_cut {A} (body : A -> M W unit) :
  (forall a s, exists s' t, body a s = (Normal tt, s', t)) ->
  forall before a after s,
    let head := for_each body before s in
    let step := body a (bot_of head) in
    let tail := for_each body after (bot_of step) in
    for_each body (before ++ a :: after) s
    = (Normal tt, bot_of tail, events_of head ++ events_of step ++ events_of tail)
    /\ result_of step = Normal tt.
Proof.
  intros Hb before a after s. cbn zeta.
  rewrite (for_each_app body Hb). cbn [for_each]. unfold bind.
  destruct (Hb a (bot_of (for_each body before s))) as (s1 & t1 & E1).
  rewrite E1.
  destruct (for_each_total body Hb after s1) as (s2 & t2 & E2).
  unfold bot_of at 2 3 4. cbn [fst snd]. rewrite E2. split; reflexivity.
Qed.

(** C6.  dig processes every offset of its list, in order, whatever
    happens at the others: the run over [before ++ offset :: after] is
    the run over [before], then the step for [offset], then the run
    over [after]; the step never throws.  The step looks up the floored
    cell of the offset and calls [bot.dig] exactly when a block is
    there, [canDigBlock] accepts it and its name is not [air]; a dig
    that throws is logged, and so is a cell that is not dug. *)
Theorem dig_processes_every_offset before offset after (s : Bot W) :
  let o := frame B s in
  let head := dig_loop B (position o) before (mkBot (world s) (Some o)) in
  let step := dig_offset B (position o) offset (bot_of head) in
  let tail := dig_loop B (position o) after (bot_of step) in
  let cell := Vec3.floored (resolve o offset) in
  let w := world (bot_of head) in
  dig B (before ++ offset :: after) s
  = (Normal VUndefined, bot_of tail,
     Log LDigStart :: origin_notice B LOriginNotSet s
     ++ events_of head ++ events_of step ++ events_of tail)
  /\ blockAt_queries (events_of (dig B (before ++ offset :: after) s))
     = map (fun c => Vec3.floored (resolve o c)) (before ++ offset :: after)
  /\ result_of step = Normal tt
  /\ blockAt_queries (events_of step) = [cell]
  /\ match get_blockAt B w cell with
     | Some b =>
         if get_canDigBlock B w b && negb (String.eqb (block_name b) "air") then
           dig_calls (events_of step) = [b]
           /\ world (bot_of step) = fst (do_dig B w b)
           /\ logs (events_of step)
              = LDigging (fst (fst offset)) (snd (fst offset)) (snd offset) cell
                :: match snd (do_dig B w b) with
                   | None => []
                   | Some e => [LCouldNotDig cell (message e)]
                   end
         else
           dig_calls (events_of step) = []
           /\ bot_of step = bot_of head
           /\ logs (events_of step)
              = [LCannotDig cell (name_or (Some b) "out of sight")]
     | None =>
         dig_calls (events_of step) = []
         /\ bot_of step = bot_of head
         /\ logs (events_of step) = [LCannotDig cell "out of sight"]
     end.
Proof.
  cbn zeta.
  destruct (for_each_cut (dig_offset B (position (frame B s)))
              (dig_offset_total B (position (frame B s)))
              before offset after (mkBot (world s) (Some (frame B s))))
    as [Ecut Estep].
  split; [|split; [|split; [exact Estep|]]].
  - rewrite dig_run. cbn zeta. unfold dig_loop. rewrite Ecut. reflexivity.
  - apply dig_queries.
  - rewrite <- pos_to_dig_resolve. rewrite dig_offset_run. cbn zeta.
    set (w := world (bot_of (dig_loop B (position (frame B s)) before _))).
    set (cell := pos_to_dig (position (frame B s)) offset).
    destruct (get_blockAt B w cell) as [b|].
    + destruct (get_canDigBlock B w b && negb (String.eqb (block_name b) "air")).
      * destruct (do_dig B w b) as [w' [e|]]; repeat split.
      * repeat split.
    + repeat split.
Qed.

(** Every request acquireItems sends is a [/give] of a positive amount. *)
Lemma acquire_loop_gives items : forall (s : Bot W),
  Forall (fun text => exists itemName amount,
              text = give_command itemName amount /\ 0 < amount)
         (chat_calls (events_of (acquire_loop B items s))).
Proof.
  unfold acquire_loop.
  induction items as [|[itemName requiredAmount] rest IH]; intros s.
  - constructor.
  - cbn [for_each fst snd]. unfold bind. rewrite acquire_item_run. cbn zeta.
    destruct (Z.ltb_spec (or_zero (get_inventoryCounts B (world s) itemName))
                         requiredAmount) as [Hlt|Hge].
    + match goal with
      | |- context [for_each ?f rest ?s1] =>
          specialize (IH s1); destruct (for_each f rest s1) as [[r2 s2] t2]
      end.
      unfold events_of in *. cbn [snd] in *. cbn [app chat_calls flat_map].
      constructor; [|exact IH].
      eexists _, _. split; [reflexivity | lia].
    + match goal with
      | |- context [for_each ?f rest ?s1] =>
          specialize (IH s1); destruct (for_each f rest s1) as [[r2 s2] t2]
      end.
      unfold events_of in *. cbn [snd] in *. exact IH.
Qed.

(** C7.  acquireItems walks the required-item table in order; the run
    over [before ++ (itemName, requiredAmount) :: after] is the run over
    [before], the step for the entry, the run over [after].  The step
    reads the inventory count at that moment ([0] when there is none)
    and sends exactly one request, [/give @s itemName n] with
    [n = requiredAmount - currentAmount], when the count is strictly
    below the requirement; otherwise it sends nothing and leaves the
    bot as it is.  A request tops the count up to the requirement and
    no more, and every request of a run is a [/give] of a positive
    amount.  The tables of cane.js and rail.js are instances. *)
Theorem acquireItems_requests_shortfall before itemName requiredAmount after
        (s : Bot W) :
  let head := acquire_loop B before s in
  let step := acquire_item B itemName requiredAmount (bot_of head) in
  let tail := acquire_loop B after (bot_of step) in
  let currentAmount := or_zero (get_inventoryCounts B (world (bot_of head)) itemName) in
  let items := before ++ (itemName, requiredAmount) :: after in
  acquireItems B items s
  = (Normal (VBool true), bot_of tail,
     Log LChecking :: (events_of head ++ events_of step ++ events_of tail)
     ++ [Log LFinishedAcquiring])
  /\ result_of step = Normal tt
  /\ chat_calls (events_of step)
     = (if currentAmount <? requiredAmount
        then [give_command itemName (requiredAmount - currentAmount)]
        else [])
  /\ (if currentAmount <? requiredAmount
      then 0 < requiredAmount - currentAmount
           /\ currentAmount + (requiredAmount - currentAmount) = requiredAmount
      else bot_of step = bot_of head)
  /\ Forall (fun text => exists n amount,
                text = give_command n amount /\ 0 < amount)
            (chat_calls (events_of (acquireItems B items s)))
  /\ cane_acquireItems B = acquireItems B cane_requiredItems
  /\ rail_acquireItems B = acquireItems B rail_requiredItems.
Proof.
  cbn zeta.
  destruct (for_each_cut (fun entry => acquire_item B (fst entry) (snd entry))
              (acquire_item_total B)
              before (itemName, requiredAmount) after s) as [Ecut Estep].
  cbn [fst snd] in Ecut, Estep.
  split; [|split; [exact Estep|split; [|split; [|split; [|split]]]]].
  - rewrite acquireItems_run. unfold acquire_loop. rewrite Ecut. reflexivity.
  - rewrite acquire_item_run. cbn zeta.
    destruct (_ <? _); reflexivity.
  - rewrite acquire_item_run. cbn zeta.
    destruct (Z.ltb_spec
                (or_zero (get_inventoryCounts B
                            (world (bot_of (acquire_loop B before s))) itemName))
                requiredAmount); [lia | reflexivity].
  - rewrite acquireItems_run. unfold events_of at 1. cbn [snd].
    rewrite chat_calls_log, chat_calls_app. cbn [chat_calls flat_map app].
    rewrite app_nil_r. apply acquire_loop_gives.
  - reflexivity.
  - reflexivity.
Qed.

End BatchClaims.

Section YawIndependence.

Context {W : Type} (B : Bridge W).

Lemma yaw_blind_ret {A} (a : A) : yaw_blind (@ret W A a).
Proof. intros w o1 o2 _. exists (Normal a), w, []. split; reflexivity. Qed.

Lemma yaw_blind_bind {A C} (m : M W A) (f : A -> M W C) :
  yaw_blind m -> (forall a, yaw_blind (f a)) -> yaw_blind (bind m f).
Proof.
  intros Hm Hf w o1 o2 Hp.
  destruct (Hm w o1 o2 Hp) as (r & w1 & t1 & E1 & E2).
  unfold bind. rewrite E1, E2. destruct r as [a|e].
  - destruct (Hf a w1 o1 o2 Hp) as (r' & w2 & t2 & F1 & F2).
    rewrite F1, F2. eauto.
  - eauto.
Qed.

Lemma yaw_blind_try_catch {A} (m : M W A) (h : Error -> M W A) :
  yaw_blind m -> (forall e, yaw_blind (h e)) -> yaw_blind (try_catch m h).
Proof.
  intros Hm Hh w o1 o2 Hp.
  destruct (Hm w o1 o2 Hp) as (r & w1 & t1 & E1 & E2).
  unfold try_catch. rewrite E1, E2. destruct r as [a|e].
  - eauto.
  - destruct (Hh e w1 o1 o2 Hp) as (r' & w2 & t2 & F1 & F2).
    rewrite F1, F2. eauto.
Qed.

Lemma yaw_blind_for_each {A} (body : A -> M W unit) l :
  (forall a, yaw_blind (body a)) -> yaw_blind (for_each body l).
Proof.
  intros Hb. induction l as [|a rest IH]; cbn [for_each].
  - apply yaw_blind_ret.
  - apply yaw_blind_bind; [apply Hb | intros _; exact IH].
Qed.

(** A step that does not read [bot.origin] and hands it on. *)
Lemma yaw_blind_step {A} (m : M W A)
      (f : W -> Completion A * W * list Event) :
  (forall w o, m (mkBot w o) = (fst (fst (f w)), mkBot (snd (fst (f w))) o, snd (f w))) ->
  yaw_blind m.
Proof.
  intros Hm w o1 o2 _. rewrite !Hm. eauto.
Qed.

Lemma yaw_blind_emit e : yaw_blind (@emit W e).
Proof. apply (yaw_blind_step _ (fun w => (Normal tt, w, [e]))). reflexivity. Qed.

Lemma yaw_blind_log m : yaw_blind (@log W m).
Proof. apply yaw_blind_emit. Qed.

Lemma yaw_blind_fallible step ev : yaw_blind (@fallible W step ev).
Proof.
  apply (yaw_blind_step _ (fun w => (match snd (step w) with
                                     | None => Normal tt
                                     | Some e => Abrupt e
                                     end, fst (step w), [ev (snd (step w))]))).
  intros w o. unfold fallible. cbn [world origin].
  destruct (step w) as [w' r]. reflexivity.
Qed.

Lemma yaw_blind_entity_position : yaw_blind (entity_position B).
Proof.
  apply (yaw_blind_step _ (fun w => (Normal (get_entity_position B w), w, []))).
  reflexivity.
Qed.

Lemma yaw_blind_entity_height : yaw_blind (entity_height B).
Proof.
  apply (yaw_blind_step _ (fun w => (Normal (get_entity_height B w), w, []))).
  reflexivity.
Qed.

Lemma yaw_blind_blockAt p : yaw_blind (bot_blockAt B p).
Proof.
  apply (yaw_blind_step _ (fun w => (Normal (get_blockAt B w p), w, [CallBlockAt p]))).
  reflexivity.
Qed.

Lemma yaw_blind_findInventoryItem n : yaw_blind (bot_findInventoryItem B n).
Proof.
  apply (yaw_blind_step _ (fun w => (Normal (get_findInventoryItem B w n), w,
                                     [CallFindInventoryItem n]))).
  reflexivity.
Qed.

Lemma yaw_blind_canDigBlock b : yaw_blind (bot_canDigBlock B b).
Proof.
  apply (yaw_blind_step _ (fun w => (Normal (get_canDigBlock B w b), w,
                                     [CallCanDigBlock b]))).
  reflexivity.
Qed.

Lemma yaw_blind_lookAt p : yaw_blind (bot_lookAt B p).
Proof.
  apply (yaw_blind_step _ (fun w => (Normal tt, do_lookAt B w p, [CallLookAt p]))).
  reflexivity.
Qed.

Lemma yaw_blind_wait ms : yaw_blind (wait B ms).
Proof.
  apply (yaw_blind_step _ (fun w => (Normal tt, do_wait B w ms, [CallWait ms]))).
  reflexivity.
Qed.

Lemma yaw_blind_goToPosition gx gy gz : yaw_blind (goToPosition B gx gy gz).
Proof.
  apply (yaw_blind_step _
           (fun w => (match snd (do_goToPosition B w gx gy gz) with
                      | inr b => Normal (VBool b)
                      | inl e => Abrupt e
                      end, fst (do_goToPosition B w gx gy gz),
                      [CallGoToPosition gx gy gz (snd (do_goToPosition B w gx gy gz))]))).
  intros w o. unfold goToPosition. cbn [world origin].
  destruct (do_goToPosition B w gx gy gz) as [w' r]. reflexivity.
Qed.

(** With an origin in place the guard does nothing. *)
Lemma yaw_blind_ensure_origin notice : yaw_blind (ensure_origin B notice).
Proof.
  intros w o1 o2 _. rewrite !ensure_origin_run. cbn. eauto.
Qed.

(** Reading the position gives the same vector; reading the yaw gives
    different numbers, which is harmless when the reader drops them. *)
Lemma yaw_blind_origin_position {C} (k : Vec3.t -> M W C) :
  (forall p, yaw_blind (k p)) -> yaw_blind (bind origin_position k).
Proof.
  intros Hk w o1 o2 Hp. unfold bind. cbn [origin_position origin].
  rewrite <- Hp.
  destruct (Hk (position o1) w o1 o2 Hp) as (r & w' & t & E1 & E2).
  rewrite E1, E2. eauto.
Qed.

Lemma yaw_blind_origin_yaw_dropped {C} (k : M W C) :
  yaw_blind k -> yaw_blind (bind origin_yaw (fun _ => k)).
Proof.
  intros Hk w o1 o2 Hp. unfold bind. cbn [origin_yaw origin].
  destruct (Hk w o1 o2 Hp) as (r & w' & t & E1 & E2).
  rewrite E1, E2. eauto.
Qed.

Ltac blind :=
  repeat first
    [ apply yaw_blind_ret
    | apply yaw_blind_log
    | apply yaw_blind_fallible
    | apply yaw_blind_entity_position
    | apply yaw_blind_entity_height
    | apply yaw_blind_blockAt
    | apply yaw_blind_findInventoryItem
    | apply yaw_blind_canDigBlock
    | apply yaw_blind_lookAt
    | apply yaw_blind_wait
    | apply yaw_blind_goToPosition
    | apply yaw_blind_ensure_origin
    | apply yaw_blind_origin_yaw_dropped
    | apply yaw_blind_origin_position; intros ?
    | apply yaw_blind_try_catch; [|intros ?]
    | apply yaw_blind_bind; [|intros ?]
    | match goal with
      | |- yaw_blind (match ?x with _ => _ end) => destruct x
      end ].

Lemma yaw_blind_equipItem itemName hand : yaw_blind (equipItem B itemName hand).
Proof. unfold equipItem, bot_equip. blind. Qed.

Lemma yaw_blind_face fd : yaw_blind (face B fd).
Proof. unfold face, when. blind. Qed.

Lemma yaw_blind_place_loop n itemName block dir :
  forall retry, yaw_blind (place_loop B n itemName block dir retry).
Proof.
  induction n as [|n IH]; intros retry; cbn [place_loop].
  - blind.
  - unfold place_attempt, bot_placeBlock. blind. apply IH.
Qed.

Lemma yaw_blind_place_phase itemName block absX absY absZ dir :
  yaw_blind (place_phase B itemName block absX absY absZ dir).
Proof.
  unfold place_phase, air_check. blind; apply yaw_blind_place_loop.
Qed.

Lemma yaw_blind_rail_placeOnBlock itemName c dir fd :
  yaw_blind (rail_placeOnBlock B itemName c dir fd).
Proof.
  unfold rail_placeOnBlock. destruct c as [[x y] z].
  blind;
    first [apply yaw_blind_equipItem | apply yaw_blind_face
          | apply yaw_blind_place_phase].
Qed.

Lemma yaw_blind_cane_placeOnBlock itemName c dir :
  yaw_blind (cane_placeOnBlock B itemName c dir).
Proof.
  unfold cane_placeOnBlock. destruct c as [[x y] z].
  blind; first [apply yaw_blind_equipItem | apply yaw_blind_place_phase].
Qed.

Lemma yaw_blind_walkTo dx dy dz : yaw_blind (walkTo B dx dy dz).
Proof. unfold walkTo. blind. Qed.

Lemma yaw_blind_toggleBlock blockType x y z : yaw_blind (toggleBlock B blockType x y z).
Proof. unfold toggleBlock, bot_activateBlock. blind. Qed.

Lemma yaw_blind_dig_offset o offset : yaw_blind (dig_offset B o offset).
Proof.
  unfold dig_offset, diggable, bot_dig. destruct offset as [[rx ry] rz]. blind.
Qed.

Lemma yaw_blind_dig blocks_to_dig : yaw_blind (dig B blocks_to_dig).
Proof.
  unfold dig, dig_loop. blind.
  apply yaw_blind_for_each. intros offset. apply yaw_blind_dig_offset.
Qed.

Lemma yaw_blind_pourWaterInHole dx dy dz : yaw_blind (pourWaterInHole B dx dy dz).
Proof.
  unfold pourWaterInHole, bot_activateItem.
  blind; apply yaw_blind_equipItem.
Qed.

Lemma yaw_blind_same_run {A} (m : M W A) w o1 o2 :
  yaw_blind m -> position o1 = position o2 ->
  same_run (m (mkBot w (Some o1))) (m (mkBot w (Some o2))).
Proof.
  intros Hm Hp. destruct (Hm w o1 o2 Hp) as (r & w' & t & E1 & E2).
  rewrite E1, E2. repeat split.
Qed.

(** C10.  Two origin frames with the same position and different yaw
    resolve every offset to the same coordinate, and every helper that
    resolves offsets runs the same from them: same completion, same
    bridge calls with the same coordinates, same log lines, same
    environment afterwards.  pourWaterInHole reads [bot.origin.yaw]
    into a constant it never uses. *)
Theorem resolution_ignores_yaw (w : W) (o1 o2 : Origin) :
  position o1 = position o2 ->
  let s1 := mkBot w (Some o1) in
  let s2 := mkBot w (Some o2) in
  (forall c, resolve o1 c = resolve o2 c)
  /\ (forall itemName c dir,
        same_run (cane_placeOnBlock B itemName c dir s1)
                 (cane_placeOnBlock B itemName c dir s2))
  /\ (forall itemName c dir fd,
        same_run (rail_placeOnBlock B itemName c dir fd s1)
                 (rail_placeOnBlock B itemName c dir fd s2))
  /\ (forall dx dy dz,
        same_run (walkTo B dx dy dz s1) (walkTo B dx dy dz s2))
  /\ (forall blockType x y z,
        same_run (toggleBlock B blockType x y z s1)
                 (toggleBlock B blockType x y z s2))
  /\ (forall blocks_to_dig,
        same_run (dig B blocks_to_dig s1) (dig B blocks_to_dig s2))
  /\ (forall dx dy dz,
        same_run (pourWaterInHole B dx dy dz s1) (pourWaterInHole B dx dy dz s2)).
Proof.
  intros Hp. cbn zeta.
  split; [intros [[r u] f]; unfold resolve; rewrite Hp; reflexivity|].
  split; [intros; apply yaw_blind_same_run;
          [apply yaw_blind_cane_placeOnBlock | exact Hp]|].
  split; [intros; apply yaw_blind_same_run;
          [apply yaw_blind_rail_placeOnBlock | exact Hp]|].
  split; [intros; apply yaw_blind_same_run;
          [apply yaw_blind_walkTo | exact Hp]|].
  split; [intros; apply yaw_blind_same_run;
          [apply yaw_blind_toggleBlock | exact Hp]|].
  split; intros; apply yaw_blind_same_run;
    [apply yaw_blind_dig | exact Hp | apply yaw_blind_pourWaterInHole | exact Hp].
Qed.

End YawIndependence.

(** The bot of the simulated world with its origin facing two ways. *)
Lemma resolution_ignores_yaw_witness :
  position Sim.start_origin = position (mkOrigin (Sim.entity Sim.start) (num 90))
  /\ same_run
       (pourWaterInHole Sim.bridge (num (-2)) (num 2) (num 4)
          (mkBot Sim.start (Some Sim.start_origin)))
       (pourWaterInHole Sim.bridge (num (-2)) (num 2) (num 4)
          (mkBot Sim.start (Some (mkOrigin (Sim.entity Sim.start) (num 90))))).
Proof.
  split; [reflexivity|].
  apply (resolution_ignores_yaw Sim.bridge Sim.start Sim.start_origin
           (mkOrigin (Sim.entity Sim.start) (num 90)) eq_refl).
Defined.

Section Reinvocation.

Context {W : Type} (B : Bridge W).










End Reinvocation.



(** ** Runs in the simulated world *)

(** The batch of the specification: the first and third cell are stone,
    the second is already air.  Both stone cells end up empty, the air
    cell is skipped with a log line, and the run completes. *)
Example dig_skips_the_empty_cell :
  let run := dig Sim.bridge [(num 0, num (-1), num 1); (num 0, num (-1), num 2);
                             (num 0, num (-1), num 3)] Sim.pit in
  result_of run = Normal VUndefined
  /\ map (fun b => Sim.cell_of (block_position b)) (dig_calls (events_of run))
     = [(0, 63, -1); (0, 63, -3)]
  /\ map (Sim.name_at (world (bot_of run))) [(0, 63, -1); (0, 63, -2); (0, 63, -3)]
     = ["air"; "air"; "air"]
  /\ length (logs (events_of run)) = 4%nat.
Proof. vm_compute. repeat split. Qed.

(** The provisioner of the specification: nothing held means one request
    for the full amount, enough held means no request. *)
Example acquireItems_rail_and_torch :
  chat_calls (events_of (acquireItems Sim.bridge [("rail", 2)] Sim.ready))
  = ["/give @s rail 2"]
  /\ chat_calls (events_of (acquireItems Sim.bridge [("torch", 2)] Sim.ready)) = [].
Proof. split; reflexivity. Qed.

(** The table of rail.js against the inventory of the simulated bot. *)
Example rail_acquireItems_requests :
  chat_calls (events_of (rail_acquireItems Sim.bridge Sim.ready))
  = ["/give @s rail 1"; "/give @s smooth_stone 8"; "/give @s piston 2";
     "/give @s observer 1"; "/give @s redstone 5"; "/give @s hopper_minecart 1";
     "/give @s redstone_torch 2"; "/give @s repeater 1"].
Proof. reflexivity. Qed.

(** The two identical hopper calls of cane.js lines 249-250: the first
    ends with the benign error, the second succeeds, and two hoppers
    stand in the world. *)
Example two_hoppers :
  let place := cane_placeOnBlock Sim.bridge "hopper" (num 0, num 0, num 2)
                 (Vec3.mk (num 0) (num 0) (num (-1))) in
  let first := place Sim.ready in
  let second := place (bot_of first) in
  result_of first = Normal (VBool true)
  /\ map benign_failure (place_outcomes (events_of first)) = [true]
  /\ Sim.changed (world (bot_of first)) = [((0, 64, -2), "hopper")]
  /\ result_of second = Normal (VBool true)
  /\ place_outcomes (events_of second) = [None]
  /\ Sim.changed (world (bot_of second))
     = [((0, 64, -3), "hopper"); ((0, 64, -2), "hopper")].
Proof. vm_compute. repeat split. Qed.

(** A server that refuses every equip: equipItem and placeOnBlock return
    [false], nothing is thrown, no placement is attempted. *)
Example refused_equip :
  let s := mkBot Sim.jammed_start (Some Sim.start_origin) in
  result_of (equipItem Sim.bridge "hopper" "hand" s) = Normal (VBool false)
  /\ result_of (rail_placeOnBlock Sim.bridge "hopper" (num 0, num (-1), num 1)
                  default_directionVec (Some "down") s) = Normal (VBool false)
  /\ place_outcomes
       (events_of (rail_placeOnBlock Sim.bridge "hopper" (num 0, num (-1), num 1)
                     default_directionVec (Some "down") s)) = [].
Proof. vm_compute. repeat split. Qed.

(** A lever that is not there: toggleBlock logs and activates nothing;
    without an origin it first takes the snapshot. *)
Example toggle_without_lever :
  let run := toggleBlock Sim.bridge "lever" (num 1) (num 0) (num 2) Sim.fresh in
  result_of run = Normal VUndefined
  /\ activate_calls (events_of run) = []
  /\ length (logs (events_of run)) = 4%nat
  /\ origin (bot_of run) = Some Sim.start_origin.
Proof. vm_compute. repeat split. Qed.

(** * Further properties of the helpers *)

Section FrameKept.

Context {W : Type} (B : Bridge W).

Lemma for_each_keeps_origin {A} (body : A -> M W unit) :
  (forall a s, exists w' t, body a s = (Normal tt, mkBot w' (origin s), t)) ->
  forall l s, exists w' t, for_each body l s = (Normal tt, mkBot w' (origin s), t).
Proof.
  intros Hb. induction l as [|a rest IH]; intros s.
  - exists (world s), []. rewrite bot_eta. reflexivity.
  - destruct (Hb a s) as (w1 & t1 & E1).
    destruct (IH (mkBot w1 (origin s))) as (w2 & t2 & E2).
    cbn [for_each]. unfold bind. rewrite E1, E2. cbn [origin]. eauto.
Qed.

Lemma acquire_item_keeps_origin (entry : string * Z) (s : Bot W) :
  exists w' t,
    acquire_item B (fst entry) (snd entry) s = (Normal tt, mkBot w' (origin s), t).
Proof.
  rewrite acquire_item_run. cbn zeta.
  destruct (_ <? _); [eauto|].
  exists (world s). rewrite bot_eta. eauto.
Qed.

Lemma acquire_loop_keeps_origin items (s : Bot W) :
  exists w' t, acquire_loop B items s = (Normal tt, mkBot w' (origin s), t).
Proof.
  apply (for_each_keeps_origin (fun entry => acquire_item B (fst entry) (snd entry))
           acquire_item_keeps_origin).
Qed.

(** X1.  The origin frame is captured at most once: a helper that
    resolves offsets leaves [bot.origin] set to the frame it worked in -
    the one it found, or the snapshot it took when there was none - also
    when it fails or, for walkTo, throws; equipItem and acquireItems leave
    [bot.origin] as it is.  So whatever the bot does in between, the
    next helper resolves against the same frame. *)
Theorem helpers_keep_the_frame (s : Bot W) :
  (forall itemName c dir,
      origin (bot_of (cane_placeOnBlock B itemName c dir s)) = Some (frame B s))
  /\ (forall itemName c dir fd,
        origin (bot_of (rail_placeOnBlock B itemName c dir fd s)) = Some (frame B s))
  /\ (forall dx dy dz, origin (bot_of (walkTo B dx dy dz s)) = Some (frame B s))
  /\ (forall blockType x y z,
        origin (bot_of (toggleBlock B blockType x y z s)) = Some (frame B s))
  /\ (forall blocks_to_dig, origin (bot_of (dig B blocks_to_dig s)) = Some (frame B s))
  /\ (forall dx dy dz,
        origin (bot_of (pourWaterInHole B dx dy dz s)) = Some (frame B s))
  /\ (forall itemName hand, origin (bot_of (equipItem B itemName hand s)) = origin s)
  /\ (forall requiredItems,
        origin (bot_of (acquireItems B requiredItems s)) = origin s).
Proof.
  assert (Hrail : forall itemName c dir fd,
             origin (bot_of (rail_placeOnBlock B itemName c dir fd s))
             = Some (frame B s)).
  { intros. destruct (rail_placeOnBlock_summary B itemName c dir fd s)
      as (b & w' & t & E & _). rewrite E. reflexivity. }
  split; [intros; rewrite cane_placeOnBlock_rail; apply Hrail|].
  split; [exact Hrail|].
  split; [|split; [|split; [|split; [|split]]]].
  - intros. rewrite walkTo_run. cbn zeta.
    destruct (do_goToPosition B (world s) _ _ _) as [w' r]. reflexivity.
  - intros. rewrite toggleBlock_run. cbn zeta.
    destruct (get_blockAt B (world s) _) as [b|];
      [destruct (String.eqb (block_name b) blockType);
       [destruct (do_activateBlock B (world s) b) as [w' r]|]|]; reflexivity.
  - intros. rewrite dig_run. cbn zeta.
    destruct (dig_loop_shape B (position (frame B s)) blocks_to_dig
                (mkBot (world s) (Some (frame B s)))) as (w' & t & E & _).
    rewrite E. reflexivity.
  - intros. rewrite pourWaterInHole_run. cbn zeta.
    destruct (get_findInventoryItem B (world s) "water_bucket") as [it|];
      [destruct (do_equip B (world s) it "hand") as [w1 [e|]];
       [|destruct (do_activateItem B _) as [w3 [e|]]]|]; reflexivity.
  - intros. destruct (equipItem_shape B itemName hand s) as (b & w' & t & E & _).
    rewrite E. reflexivity.
  - intros. rewrite acquireItems_run.
    destruct (acquire_loop_keeps_origin requiredItems s) as (w' & t & E).
    rewrite E. reflexivity.
Qed.

End FrameKept.

Section CallOrder.

Context {W : Type} (B : Bridge W).

Lemma bridge_calls_app a b : bridge_calls (a ++ b) = bridge_calls a ++ bridge_calls b.
Proof. apply filter_app. Qed.

Lemma bridge_calls_log m t : bridge_calls (Log m :: t) = bridge_calls t.
Proof. reflexivity. Qed.

Lemma bridge_calls_origin_notice notice (s : Bot W) :
  bridge_calls (origin_notice B notice s) = [].
Proof. unfold origin_notice. destruct (origin s); reflexivity. Qed.

(** X2.  walkTo makes one bridge call, [goToPosition] to the resolved
    coordinate, and completes as that call does: it returns the boolean
    the call returns, and an error the call throws leaves walkTo
    uncaught - nothing is logged after it. *)
Theorem walkTo_completes_as_goToPosition dx dy dz (s : Bot W) :
  let target := resolve (frame B s) (dx, dy, dz) in
  let nav := do_goToPosition B (world s) (Vec3.x target) (Vec3.y target)
               (Vec3.z target) in
  let call := CallGoToPosition (Vec3.x target) (Vec3.y target) (Vec3.z target)
                (snd nav) in
  let run := walkTo B dx dy dz s in
  result_of run = match snd nav with
                  | inr b => Normal (VBool b)
                  | inl e => Abrupt e
                  end
  /\ world (bot_of run) = fst nav
  /\ bridge_calls (events_of run) = [call]
  /\ last (events_of run) (Log LChecking) = call.
Proof.
  cbn zeta. rewrite walkTo_run. cbn zeta.
  destruct (do_goToPosition B (world s) _ _ _) as [w' r].
  unfold result_of, bot_of, events_of. cbn [fst snd world].
  rewrite bridge_calls_app, bridge_calls_origin_notice, last_app_r by discriminate.
  repeat split.
Qed.

(** X3.  pourWaterInHole returns [true] exactly when [bot.activateItem]
    was called and resolved.  Its bridge calls come in one order: the
    look-up of the water bucket; if found, the equip; if that resolved,
    the look at the resolved coordinate, a wait of 200, the activation;
    and, only if that resolved, a wait of 1000.  So it never looks or
    pours without the bucket in hand, and never pours without having
    looked. *)
Theorem pourWaterInHole_call_order dx dy dz (s : Bot W) :
  let target := resolve (frame B s) (dx, dy, dz) in
  let run := pourWaterInHole B dx dy dz s in
  (result_of run = Normal (VBool true)
   <-> In (CallActivateItem None) (events_of run))
  /\ bridge_calls (events_of run)
     = CallFindInventoryItem "water_bucket"
       :: match get_findInventoryItem B (world s) "water_bucket" with
          | None => []
          | Some it =>
              CallEquip it "hand" (snd (do_equip B (world s) it "hand"))
              :: match snd (do_equip B (world s) it "hand") with
                 | Some _ => []
                 | None =>
                     let looked :=
                       do_wait B (do_lookAt B (fst (do_equip B (world s) it "hand"))
                                            target) 200 in
                     [CallLookAt target; CallWait 200;
                      CallActivateItem (snd (do_activateItem B looked))]
                     ++ match snd (do_activateItem B looked) with
                        | None => [CallWait 1000]
                        | Some _ => []
                        end
                 end
          end.
Proof.
  cbn zeta. rewrite pourWaterInHole_run. cbn zeta. rewrite lookAtPoint_resolve.
  assert (Hno : ~ In (CallActivateItem None)
                    (Log (LPouring dx dy dz) :: origin_notice B LOriginNotSet s)).
  { unfold origin_notice. destruct (origin s); cbn; intuition discriminate. }
  destruct (get_findInventoryItem B (world s) "water_bucket") as [it|].
  - destruct (do_equip B (world s) it "hand") as [w1 [e|]]; cbn [fst snd].
    + unfold result_of, events_of. cbn [fst snd].
      rewrite bridge_calls_app, bridge_calls_log, bridge_calls_origin_notice.
      split; [|reflexivity].
      split; [discriminate|]. intros Hin. apply in_app_or in Hin.
      destruct Hin as [Hin|Hin]; [contradiction|].
      cbn in Hin. intuition discriminate.
    + destruct (do_activateItem B _) as [w3 [e|]]; cbn [snd];
        unfold result_of, events_of; cbn [fst snd];
        rewrite !bridge_calls_app, bridge_calls_log, bridge_calls_origin_notice.
      * split; [|reflexivity].
        split; [discriminate|]. intros Hin.
        apply in_app_or in Hin. destruct Hin as [Hin|Hin]; [contradiction|].
        cbn in Hin. intuition discriminate.
      * split; [|reflexivity].
        split; [|reflexivity]. intros _.
        apply in_or_app. right. cbn. intuition.
  - unfold result_of, events_of. cbn [fst snd].
    rewrite bridge_calls_app, bridge_calls_log, bridge_calls_origin_notice.
    split; [|reflexivity].
    split; [discriminate|]. intros Hin. apply in_app_or in Hin.
    destruct Hin as [Hin|Hin]; [contradiction|].
    cbn in Hin. intuition discriminate.
Qed.

End CallOrder.

Section Facing.

Context {W : Type} (B : Bridge W).

Lemma face_run fd (s : Bot W) :
  face B (Some fd) s
  = if truthy_string fd then
      match facing_vector fd with
      | Some u =>
          let target := Vec3.plus (head_position B (world s)) u in
          (Normal tt, mkBot (do_wait B (do_lookAt B (world s) target) 200) (origin s),
           [Log (LLooking fd); CallLookAt target; CallWait 200])
      | None => (Normal tt, s, [Log (LInvalidFacing fd)])
      end
    else (Normal tt, s, []).
Proof.
  unfold face, when, facing_vector, head_position.
  destruct (truthy_string fd); [|reflexivity].
  unfold bind, entity_position, entity_height, ret, log, emit, bot_lookAt, wait.
  repeat match goal with
         | |- context [String.eqb fd ?k] => destruct (String.eqb fd k)
         end; reflexivity.
Qed.

Lemma known_facing_vector fd : known_facing fd = false <-> facing_vector fd = None.
Proof.
  unfold known_facing, facing_vector. cbn [existsb].
  repeat match goal with
         | |- context [String.eqb fd ?k] => destruct (String.eqb fd k)
         end; cbn; split; congruence.
Qed.

Lemma place_loop_no_look n itemName block dir : forall retry (s : Bot W),
  lookAt_calls (events_of (place_loop B n itemName block dir retry s)) = []
  /\ bridge_calls (events_of (place_loop B n itemName block dir retry s))
     = map (fun r => CallPlaceBlock block dir r)
           (place_outcomes (events_of (place_loop B n itemName block dir retry s))).
Proof.
  induction n as [|n IH]; intros retry s; [split; reflexivity|].
  cbn [place_loop]. unfold bind. rewrite place_attempt_run.
  destruct (do_placeBlock B (world s) block dir) as [w1 r].
  destruct (transient_failure r).
  - destruct (IH (retry + 1) (mkBot w1 (origin s))) as [IHl IHb].
    destruct (place_loop B n itemName block dir (retry + 1) (mkBot w1 (origin s)))
      as [[r2 s2] t2].
    unfold events_of in *. cbn [snd] in *.
    split.
    + rewrite lookAt_calls_app, IHl. reflexivity.
    + rewrite bridge_calls_app, place_outcomes_app, map_app, IHb. reflexivity.
  - split; reflexivity.
Qed.

(** Where the only [lookAt] call of a list of events is. *)
Lemma only_look_position front rest target0 :
  lookAt_calls front = [] -> lookAt_calls rest = [] ->
  forall pre post target,
    front ++ CallLookAt target0 :: rest = pre ++ CallLookAt target :: post ->
    pre = front.
Proof.
  intros Hf Hr. induction front as [|a front IH]; intros pre post target E.
  - destruct pre as [|p pre]; [reflexivity|].
    cbn in E. injection E as _ E.
    rewrite E, lookAt_calls_app in Hr.
    apply app_eq_nil in Hr. destruct Hr as [_ Hr]. discriminate Hr.
  - change (a :: front) with ([a] ++ front) in Hf.
    rewrite lookAt_calls_app in Hf. apply app_eq_nil in Hf. destruct Hf as [Ha Hf].
    destruct pre as [|p pre].
    + cbn in E. injection E as E _. subst a. discriminate Ha.
    + cbn in E. injection E as E1 E2. subst p.
      f_equal. eapply IH; eauto.
Qed.

(** X4.  A facing direction other than north, south, east, west, up
    and down is ignored by rail.js's placeOnBlock: the call returns the
    same value, leaves the same bot and makes the same bridge calls as
    without a facing direction.  The empty string changes nothing at
    all; any other unknown direction costs one more log line, written
    when the placement phase is reached. *)
Theorem unknown_facing_is_ignored itemName c dir fd (s : Bot W) :
  known_facing fd = false ->
  let run := rail_placeOnBlock B itemName c dir (Some fd) s in
  let plain := rail_placeOnBlock B itemName c dir None s in
  result_of run = result_of plain
  /\ bot_of run = bot_of plain
  /\ bridge_calls (events_of run) = bridge_calls (events_of plain)
  /\ length (logs (events_of run))
     = (length (logs (events_of plain))
        + if reaches_placement B itemName c s && truthy_string fd then 1 else 0)%nat
  /\ (truthy_string fd = false -> run = plain).
Proof.
  intros Hfd. apply known_facing_vector in Hfd. cbn zeta.
  pose proof (rail_placeOnBlock_cases B itemName c dir (Some fd) s) as H1.
  pose proof (rail_placeOnBlock_cases B itemName c dir None s) as H2.
  cbn zeta in H1, H2. unfold reaches_placement.
  destruct (get_blockAt B (world s) (resolve (frame B s) c)) as [block|];
    [|rewrite H1, H2; cbn [andb]; rewrite Nat.add_0_r; repeat split].
  destruct (get_findInventoryItem B (world s) itemName) as [it|];
    [|rewrite H1, H2; cbn [andb]; rewrite Nat.add_0_r; repeat split].
  destruct (do_equip B (world s) it "hand") as [w1 [e|]];
    [rewrite H1, H2; cbn [andb snd is_object negb]; rewrite Nat.add_0_r;
     repeat split|].
  destruct H1 as (w2 & t2 & b & w3 & t3 & Ef & El & Er).
  destruct H2 as (w2' & t2' & b' & w3' & t3' & Ef' & El' & Er').
  rewrite face_run, Hfd in Ef. cbn in Ef'. injection Ef' as <- <-.
  assert (Hw : w2 = w1 /\ t2 = if truthy_string fd then [Log (LInvalidFacing fd)] else []).
  { destruct (truthy_string fd); injection Ef as <- <-; split; reflexivity. }
  destruct Hw as [-> ->]. rewrite El in El'. injection El' as <- <- <-.
  rewrite Er, Er'. unfold result_of, bot_of, events_of. cbn [fst snd negb is_object andb].
  rewrite !bridge_calls_app, !logs_app, !length_app.
  destruct (truthy_string fd); cbn [app length bridge_calls filter logs flat_map];
    repeat split; try lia; try discriminate.
Qed.

(** X5.  rail.js's placeOnBlock turns the head at most once: when the
    placement phase is reached and the facing direction is one of the
    six it knows.  It then looks at the point one block from the bot's
    eyes in that direction - the eyes being where the bot stands at that
    moment, not the origin frame - before the first placement attempt.
    In every other case it makes no [lookAt] call. *)
Theorem known_facing_looks_once itemName c dir fd (s : Bot W) :
  let run := rail_placeOnBlock B itemName c dir (Some fd) s in
  lookAt_calls (events_of run)
  = match get_blockAt B (world s) (resolve (frame B s) c),
          get_findInventoryItem B (world s) itemName with
    | Some _, Some it =>
        match do_equip B (world s) it "hand", facing_vector fd with
        | (w1, None), Some u => [Vec3.plus (head_position B w1) u]
        | _, _ => []
        end
    | _, _ => []
    end
  /\ (forall pre post target,
         events_of run = pre ++ CallLookAt target :: post ->
         place_outcomes pre = []).
Proof.
  cbn zeta.
  pose proof (rail_placeOnBlock_cases B itemName c dir (Some fd) s) as H.
  cbn zeta in H.
  destruct (origin_notice_silent B LOriginNotSetCurrentCurrent s)
    as (Nq & Np & Ne & Nl & _).
  assert (Hnone : forall t : list Event,
             lookAt_calls t = [] ->
             forall pre post target, t = pre ++ CallLookAt target :: post ->
                                     place_outcomes pre = []).
  { intros t Ht pre post target E. rewrite E, lookAt_calls_app in Ht.
    apply app_eq_nil in Ht. destruct Ht as [_ Ht]. discriminate Ht. }
  destruct (get_blockAt B (world s) (resolve (frame B s) c)) as [block|].
  2:{ rewrite H. cbn [events_of snd].
      assert (Hl : lookAt_calls
                     (origin_notice B LOriginNotSetCurrentCurrent s
                      ++ [CallBlockAt (resolve (frame B s) c);
                          Log (LNoSupportingBlock
                                 (Vec3.x (resolve (frame B s) c))
                                 (Vec3.y (resolve (frame B s) c))
                                 (Vec3.z (resolve (frame B s) c)) itemName)]) = [])
        by (rewrite lookAt_calls_app, Nl; reflexivity).
      split; [exact Hl | exact (Hnone _ Hl)]. }
  destruct (get_findInventoryItem B (world s) itemName) as [it|].
  2:{ rewrite H. cbn [events_of snd].
      match goal with
      | |- lookAt_calls ?t = [] /\ _ =>
          assert (Hl : lookAt_calls t = [])
            by (rewrite lookAt_calls_app, Nl; reflexivity);
          split; [exact Hl | exact (Hnone _ Hl)]
      end. }
  destruct (do_equip B (world s) it "hand") as [w1 [e|]].
  { rewrite H. cbn [events_of snd].
    match goal with
    | |- lookAt_calls ?t = [] /\ _ =>
        assert (Hl : lookAt_calls t = [])
          by (rewrite lookAt_calls_app, Nl; reflexivity);
        split; [exact Hl | exact (Hnone _ Hl)]
    end. }
  destruct H as (w2 & t2 & b & w3 & t3 & Ef & El & Er).
  pose proof (proj1 (place_loop_no_look maxRetries itemName block dir 0
                       (mkBot w2 (Some (frame B s))))) as Hl3.
  rewrite El in Hl3. cbn [events_of snd] in Hl3.
  rewrite Er. cbn [events_of snd].
  rewrite face_run in Ef. cbn [world origin] in Ef.
  destruct (truthy_string fd) eqn:Ht.
  - destruct (facing_vector fd) as [u|] eqn:Hu.
    + cbn zeta in Ef. injection Ef as <- <-.
      split.
      * rewrite !lookAt_calls_app, Nl, Hl3. reflexivity.
      * intros pre post target E.
        set (front := origin_notice B LOriginNotSetCurrentCurrent s
                      ++ [CallBlockAt (resolve (frame B s) c);
                          CallFindInventoryItem itemName; CallEquip it "hand" None;
                          Log (LEquipped itemName "hand"); Log (LLooking fd)]) in *.
        set (target0 := Vec3.plus (head_position B w1) u) in *.
        assert (E' : front ++ CallLookAt target0 :: (CallWait 200 :: t3)
                     = pre ++ CallLookAt target :: post).
        { rewrite <- E. unfold front. rewrite <- !app_assoc. reflexivity. }
        assert (Hfront : lookAt_calls front = [] /\ place_outcomes front = []).
        { unfold front. rewrite lookAt_calls_app, place_outcomes_app, Nl, Np.
          split; reflexivity. }
        assert (Hrest : lookAt_calls (CallWait 200 :: t3) = [])
          by (cbn; exact Hl3).
        rewrite (only_look_position front _ target0 (proj1 Hfront) Hrest
                   pre post target E').
        exact (proj2 Hfront).
    + injection Ef as <- <-.
      match goal with
      | |- lookAt_calls ?t = [] /\ _ =>
          assert (Hl : lookAt_calls t = [])
            by (rewrite !lookAt_calls_app, Nl, Hl3; reflexivity);
          split; [exact Hl | exact (Hnone _ Hl)]
      end.
  - injection Ef as <- <-.
    assert (Hu : facing_vector fd = None).
    { destruct fd; [reflexivity | discriminate Ht]. }
    rewrite Hu.
    match goal with
    | |- lookAt_calls ?t = [] /\ _ =>
        assert (Hl : lookAt_calls t = [])
          by (rewrite !lookAt_calls_app, Nl, Hl3; reflexivity);
        split; [exact Hl | exact (Hnone _ Hl)]
    end.
Qed.

End Facing.

(** "sideways" is no facing direction. *)
Lemma unknown_facing_is_ignored_witness :
  known_facing "sideways" = false
  /\ result_of (rail_placeOnBlock Sim.bridge "torch" (off 0 (-1) 1)
                  default_directionVec (Some "sideways") Sim.ready)
     = result_of (rail_placeOnBlock Sim.bridge "torch" (off 0 (-1) 1)
                    default_directionVec None Sim.ready).
Proof.
  split; [reflexivity|].
  apply (unknown_facing_is_ignored Sim.bridge "torch" (off 0 (-1) 1)
           default_directionVec "sideways" Sim.ready eq_refl).
Defined.

Section Provisioning.

Context {W : Type} (B : Bridge W).

Lemma acquire_loop_stocked items : forall (s : Bot W),
  (forall itemName requiredAmount,
      In (itemName, requiredAmount) items ->
      requiredAmount <= or_zero (get_inventoryCounts B (world s) itemName)) ->
  acquire_loop B items s
  = (Normal tt, s,
     flat_map (fun entry => [CallGetInventoryCounts; Log (LEnough (fst entry))]) items).
Proof.
  unfold acquire_loop.
  induction items as [|[itemName requiredAmount] rest IH]; intros s Hs; [reflexivity|].
  cbn [for_each fst snd]. unfold bind. rewrite acquire_item_run. cbn zeta.
  pose proof (Hs itemName requiredAmount (or_introl eq_refl)) as Hle.
  destruct (Z.ltb_spec (or_zero (get_inventoryCounts B (world s) itemName))
                       requiredAmount) as [Hlt|_]; [lia|].
  rewrite IH by (intros n k Hin; apply Hs; right; exact Hin).
  reflexivity.
Qed.

(** X6.  When the inventory already holds the required amount of every
    entry of the table, acquireItems reads the counts once per entry,
    logs that there is enough, sends no request, does not wait, leaves
    the bot as it is and returns [true]. *)
Theorem acquireItems_when_stocked requiredItems (s : Bot W) :
  (forall itemName requiredAmount,
      In (itemName, requiredAmount) requiredItems ->
      requiredAmount <= or_zero (get_inventoryCounts B (world s) itemName)) ->
  acquireItems B requiredItems s
  = (Normal (VBool true), s,
     Log LChecking
     :: flat_map (fun entry => [CallGetInventoryCounts; Log (LEnough (fst entry))])
                 requiredItems
     ++ [Log LFinishedAcquiring]).
Proof.
  intros Hs. rewrite acquireItems_run, (acquire_loop_stocked requiredItems s Hs).
  reflexivity.
Qed.

Lemma acquire_loop_counts items : forall (s : Bot W),
  inventory_reads (events_of (acquire_loop B items s)) = length items
  /\ (length (chat_calls (events_of (acquire_loop B items s))) <= length items)%nat
  /\ wait_calls (events_of (acquire_loop B items s))
     = map (fun _ => 200) (chat_calls (events_of (acquire_loop B items s))).
Proof.
  unfold acquire_loop.
  induction items as [|[itemName requiredAmount] rest IH]; intros s.
  - repeat split. cbn. lia.
  - cbn [for_each fst snd]. unfold bind. rewrite acquire_item_run. cbn zeta.
    destruct (_ <? _);
      match goal with
      | |- context [for_each ?f rest ?s1] =>
          destruct (IH s1) as (IH1 & IH2 & IH3);
          destruct (for_each f rest s1) as [[r2 s2] t2]
      end;
      unfold events_of, inventory_reads in *; cbn [snd] in *;
      cbn [app filter length chat_calls wait_calls flat_map map];
      fold (chat_calls t2); fold (wait_calls t2);
      repeat split; try lia; try congruence.
Qed.

Lemma inventory_reads_app a b :
  inventory_reads (a ++ b) = (inventory_reads a + inventory_reads b)%nat.
Proof. unfold inventory_reads. rewrite filter_app, length_app. reflexivity. Qed.

Lemma wait_calls_app a b : wait_calls (a ++ b) = wait_calls a ++ wait_calls b.
Proof. apply flat_map_app. Qed.

(** The calls of the loop, entry by entry. *)
Lemma acquire_loop_calls items : forall (s : Bot W),
  exists requests,
    length requests = length items
    /\ Forall positive_request requests
    /\ bridge_calls (events_of (acquire_loop B items s)) = table_calls items requests.
Proof.
  unfold acquire_loop.
  induction items as [|[itemName requiredAmount] rest IH]; intros s.
  - exists []. repeat split. constructor.
  - cbn [for_each fst snd]. unfold bind. rewrite acquire_item_run. cbn zeta.
    destruct (Z.ltb_spec (or_zero (get_inventoryCounts B (world s) itemName))
                         requiredAmount) as [Hlt|Hge];
      match goal with
      | |- context [for_each ?f rest ?s1] =>
          destruct (IH s1) as (requests & Hlen & Hpos & Hcalls);
          destruct (for_each f rest s1) as [[r2 s2] t2]
      end;
      unfold events_of in *; cbn [snd] in *.
    + exists (Some (requiredAmount
                    - or_zero (get_inventoryCounts B (world s) itemName))
              :: requests).
      split; [cbn [length]; congruence|].
      split; [constructor; [cbn; lia | exact Hpos]|].
      rewrite bridge_calls_app, Hcalls. reflexivity.
    + exists (None :: requests).
      split; [cbn [length]; congruence|].
      split; [constructor; [exact I | exact Hpos]|].
      rewrite bridge_calls_app, Hcalls. reflexivity.
Qed.

(** X7.  For every table and every inventory, acquireItems returns
    [true], and its bridge calls are those of the entries of the table
    in order: for each entry one read of the inventory counts, followed
    either by nothing or by one [/give] request for the item of that
    entry, of a positive amount, and directly after it a wait of 200.
    There is no other bridge call.  So it reads the counts once per
    entry, sends at most one request per entry, and waits 200 after each
    request and at no other time. *)
Theorem acquireItems_reads_once_per_entry requiredItems (s : Bot W) :
  let run := acquireItems B requiredItems s in
  result_of run = Normal (VBool true)
  /\ inventory_reads (events_of run) = length requiredItems
  /\ (length (chat_calls (events_of run)) <= length requiredItems)%nat
  /\ wait_calls (events_of run) = map (fun _ => 200) (chat_calls (events_of run))
  /\ exists requests,
       length requests = length requiredItems
       /\ Forall positive_request requests
       /\ bridge_calls (events_of run) = table_calls requiredItems requests.
Proof.
  cbn zeta. rewrite acquireItems_run.
  destruct (acquire_loop_counts requiredItems s) as (H1 & H2 & H3).
  destruct (acquire_loop_calls requiredItems s) as (requests & Hlen & Hpos & Hcalls).
  unfold result_of, events_of in *. cbn [fst snd] in *.
  split; [reflexivity|].
  change (inventory_reads (Log LChecking :: ?t)) with (inventory_reads t).
  change (wait_calls (Log LChecking :: ?t)) with (wait_calls t).
  change (bridge_calls (Log LChecking :: ?t)) with (bridge_calls t).
  rewrite chat_calls_log, inventory_reads_app, wait_calls_app, chat_calls_app,
    bridge_calls_app, H1, H3, Hcalls.
  cbn. rewrite !app_nil_r.
  split; [lia|]. split; [lia|]. split; [reflexivity|].
  exists requests. repeat split; assumption.
Qed.

End Provisioning.

(** The bot of the simulated world holds the hoppers and torches asked for. *)
Lemma acquireItems_when_stocked_witness :
  chat_calls
    (events_of (acquireItems Sim.bridge [("hopper", 6); ("torch", 2)] Sim.ready)) = [].
Proof.
  rewrite (acquireItems_when_stocked Sim.bridge [("hopper", 6); ("torch", 2)] Sim.ready).
  - reflexivity.
  - intros itemName requiredAmount [E|[E|[]]]; injection E as <- <-;
      vm_compute; discriminate.
Defined.

Section AttemptNumbers.

Context {W : Type} (B : Bridge W).

Lemma attempt_numbers_app a b :
  attempt_numbers (a ++ b) = attempt_numbers a ++ attempt_numbers b.
Proof. apply flat_map_app. Qed.

Lemma place_loop_attempt_numbers n itemName block dir : forall retry (s : Bot W),
  let t := events_of (place_loop B n itemName block dir retry s) in
  attempt_numbers t
  = map (fun i => retry + Z.of_nat i)
        (seq 1 (length (filter transient_failure (place_outcomes t)))).
Proof.
  induction n as [|n IH]; intros retry s; [reflexivity|].
  cbn zeta. cbn [place_loop]. unfold bind. rewrite place_attempt_run.
  destruct (do_placeBlock B (world s) block dir) as [w1 r].
  destruct (transient_failure r) eqn:Hr.
  - specialize (IH (retry + 1) (mkBot w1 (origin s))). cbn zeta in IH.
    destruct (place_loop B n itemName block dir (retry + 1) (mkBot w1 (origin s)))
      as [[r2 s2] t2].
    unfold events_of in *. cbn [snd] in *.
    rewrite attempt_numbers_app, place_outcomes_app, filter_app, length_app, IH.
    destruct r as [e|]; [|discriminate Hr].
    cbn in Hr. apply negb_true_iff in Hr.
    cbn [place_outcomes flat_map app filter transient_failure length].
    rewrite Hr. cbn [negb length attempt_numbers flat_map app Nat.add seq map].
    f_equal. rewrite <- (seq_shift _ 1), map_map.
    apply map_ext. intros i. lia.
  - unfold events_of. cbn [snd].
    destruct r as [e|].
    + cbn in Hr. apply negb_false_iff in Hr.
      unfold ret. cbn [snd app place_outcomes flat_map filter transient_failure].
      rewrite Hr. reflexivity.
    + reflexivity.
Qed.

Lemma face_attempt_numbers fd (s : Bot W) :
  attempt_numbers (events_of (face B fd s)) = []
  /\ place_outcomes (events_of (face B fd s)) = [].
Proof.
  destruct fd as [fd|]; [|split; reflexivity].
  rewrite face_run.
  destruct (truthy_string fd); [destruct (facing_vector fd)|]; split; reflexivity.
Qed.

(** X8.  The log lines "Attempt n to place ... failed" of one
    placeOnBlock call are numbered 1, 2, ... without gap, one for each
    placement attempt that threw a non-benign error. *)
Theorem failed_attempts_are_numbered itemName c dir fd (s : Bot W) :
  let run := rail_placeOnBlock B itemName c dir fd s in
  let failures := filter transient_failure (place_outcomes (events_of run)) in
  attempt_numbers (events_of run) = map Z.of_nat (seq 1 (length failures))
  /\ cane_placeOnBlock B itemName c dir s = rail_placeOnBlock B itemName c dir None s.
Proof.
  cbn zeta. split; [|apply cane_placeOnBlock_rail].
  pose proof (rail_placeOnBlock_cases B itemName c dir fd s) as H. cbn zeta in H.
  assert (Hn : attempt_numbers (origin_notice B LOriginNotSetCurrentCurrent s) = []
               /\ place_outcomes (origin_notice B LOriginNotSetCurrentCurrent s) = []).
  { unfold origin_notice. destruct (origin s); split; reflexivity. }
  destruct Hn as [Nn Np].
  destruct (get_blockAt B (world s) (resolve (frame B s) c)) as [block|].
  2:{ rewrite H. cbn [events_of snd].
      rewrite attempt_numbers_app, place_outcomes_app, Nn, Np. reflexivity. }
  destruct (get_findInventoryItem B (world s) itemName) as [it|].
  2:{ rewrite H. cbn [events_of snd].
      rewrite attempt_numbers_app, place_outcomes_app, Nn, Np. reflexivity. }
  destruct (do_equip B (world s) it "hand") as [w1 [e|]].
  { rewrite H. cbn [events_of snd].
    rewrite attempt_numbers_app, place_outcomes_app, Nn, Np. reflexivity. }
  destruct H as (w2 & t2 & b & w3 & t3 & Ef & El & Er).
  destruct (face_attempt_numbers fd (mkBot w1 (Some (frame B s)))) as [Fn Fp].
  rewrite Ef in Fn, Fp. cbn [events_of snd] in Fn, Fp.
  pose proof (place_loop_attempt_numbers maxRetries itemName block dir 0
                (mkBot w2 (Some (frame B s)))) as Hl.
  cbn zeta in Hl. rewrite El in Hl. cbn [events_of snd] in Hl.
  rewrite Er. cbn [events_of snd].
  rewrite !attempt_numbers_app, !place_outcomes_app, Nn, Np, Fn, Fp, Hl.
  cbn [attempt_numbers place_outcomes flat_map app].
  apply map_ext. intros i. lia.
Qed.

End AttemptNumbers.

(** * The build scripts *)

Section Jumping.

Context {W : Type} (B : Bridge W) (C : Controls W).

Lemma control_calls_app a b : control_calls (a ++ b) = control_calls a ++ control_calls b.
Proof. apply flat_map_app. Qed.

Lemma helper_events_app a b : helper_events (a ++ b) = helper_events a ++ helper_events b.
Proof. apply flat_map_app. Qed.

Lemma helper_events_lift (t : list Event) : helper_events (map OfHelper t) = t.
Proof. induction t as [|e t IH]; [reflexivity|]. cbn. f_equal. exact IH. Qed.

Lemma control_calls_lift (t : list Event) : control_calls (map OfHelper t) = [].
Proof. induction t as [|e t IH]; [reflexivity|]. exact IH. Qed.

(** One turn of the loop of jumpForDuration. *)
Lemma jump_loop_step fuel endTime (s : Bot W) :
  jump_loop B C (S fuel) endTime s
  = let '(w1, now) := do_now C (world s) in
    if now <? endTime then
      if get_interrupt_code C w1 then
        (Normal (Some tt), mkBot w1 (origin s),
         [CallDateNow now; ScriptLog LJumpInterrupted])
      else
        let w2 := do_wait B (do_setControlState C w1 "jump" true) 100 in
        let w3 := do_wait B (do_setControlState C w2 "jump" false) 100 in
        let rest := jump_loop B C fuel endTime (mkBot w3 (origin s)) in
        (sresult_of rest, sbot_of rest,
         [CallDateNow now; CallSetControlState "jump" true; OfHelper (CallWait 100);
          CallSetControlState "jump" false; OfHelper (CallWait 100)]
         ++ sevents_of rest)
    else (Normal (Some tt), mkBot w1 (origin s), [CallDateNow now]).
Proof.
  cbn [jump_loop]. unfold sbind, date_now, interrupt_code.
  destruct (do_now C (world s)) as [w1 now]. cbn [world origin].
  destruct (now <? endTime); [|reflexivity].
  cbn [world origin].
  destruct (get_interrupt_code C w1); [reflexivity|].
  unfold bot_setControlState, lift, wait, script_log. cbn [world origin map].
  destruct (jump_loop B C fuel endTime _) as [[r s'] t]. reflexivity.
Qed.

Lemma jump_loop_shape fuel endTime : forall (s : Bot W),
  exists presses (finished : bool) w' t,
    jump_loop B C fuel endTime s
    = (Normal (if finished then Some tt else None), mkBot w' (origin s), t)
    /\ (presses <= fuel)%nat
    /\ control_calls t = concat (repeat one_jump presses)
    /\ blockAt_queries (helper_events t) = [].
Proof.
  induction fuel as [|fuel IH]; intros s.
  - exists O, false, (world s), []. rewrite bot_eta. repeat split. lia.
  - rewrite jump_loop_step.
    destruct (do_now C (world s)) as [w1 now].
    destruct (now <? endTime).
    + destruct (get_interrupt_code C w1).
      * exists O, true, w1. eexists. split; [reflexivity|]. repeat split. lia.
      * cbn zeta.
        match goal with
        | |- context [jump_loop B C fuel endTime ?s1] =>
            destruct (IH s1) as (presses & finished & w' & t & E & Hp & Hc & Hq)
        end.
        rewrite E. cbn [sresult_of sbot_of sevents_of fst snd origin].
        exists (S presses), finished, w'. eexists. split; [reflexivity|].
        split; [lia|]. split.
        -- rewrite control_calls_app, Hc. reflexivity.
        -- rewrite helper_events_app, blockAt_queries_app, Hq. reflexivity.
    + exists O, true, w1. eexists. split; [reflexivity|]. repeat split. lia.
Qed.

Lemma jumpForDuration_run fuel duration (s : Bot W) :
  jumpForDuration B C fuel duration s
  = let '(w1, now) := do_now C (world s) in
    let loop := jump_loop B C fuel (now + duration) (mkBot w1 (origin s)) in
    match sresult_of loop with
    | Normal (Some _) =>
        (Normal (Some (VBool true)),
         mkBot (do_setControlState C (world (sbot_of loop)) "jump" false)
               (origin (sbot_of loop)),
         [ScriptLog (LJumpFor duration); CallDateNow now] ++ sevents_of loop
         ++ [CallSetControlState "jump" false; ScriptLog LStoppedJumping])
    | Normal None =>
        (Normal None, sbot_of loop,
         [ScriptLog (LJumpFor duration); CallDateNow now] ++ sevents_of loop)
    | Abrupt e =>
        (Abrupt e, sbot_of loop,
         [ScriptLog (LJumpFor duration); CallDateNow now] ++ sevents_of loop)
    end.
Proof.
  unfold jumpForDuration, sbind, script_log, date_now.
  destruct (do_now C (world s)) as [w1 now]. cbn [world origin].
  destruct (jump_loop B C fuel (now + duration) _) as [[[[u|]|e] s'] t];
    cbn; rewrite ?app_nil_r; reflexivity.
Qed.

(** X9.  jumpForDuration never leaves the jump key pressed: its
    [setControlState] calls are a press and a release of "jump" for each
    jump made, and, whenever the function returns, one more release.  It
    makes at most as many jumps as iterations it is given, returns [true]
    whenever its loop ends and never throws. *)
Theorem jumpForDuration_releases_jump fuel duration (s : Bot W) :
  let run := jumpForDuration B C fuel duration s in
  exists presses (finished : bool),
    (presses <= fuel)%nat
    /\ sresult_of run = Normal (if finished then Some (VBool true) else None)
    /\ control_calls (sevents_of run)
       = concat (repeat one_jump presses)
         ++ (if finished then [("jump", false)] else []).
Proof.
  cbn zeta. rewrite jumpForDuration_run.
  destruct (do_now C (world s)) as [w1 now]. cbn zeta.
  destruct (jump_loop_shape fuel (now + duration) (mkBot w1 (origin s)))
    as (presses & finished & w' & t & E & Hp & Hc & _).
  rewrite E. exists presses, finished.
  destruct finished; cbn [sresult_of sbot_of sevents_of fst snd];
    (split; [exact Hp|]); (split; [reflexivity|]);
    rewrite !control_calls_app, Hc; cbn; rewrite ?app_nil_r; reflexivity.
Qed.

Lemma jump_loop_finishes (Hclock : clock_advances B C) fuel :
  forall endTime (s : Bot W),
    endTime - time_of C (world s) <= 200 * Z.of_nat fuel ->
    exists s' t, jump_loop B C (S fuel) endTime s = (Normal (Some tt), s', t).
Proof.
  destruct Hclock as (Hnow & Hset & Hwait).
  induction fuel as [|fuel IH]; intros endTime s Hleft.
  - rewrite jump_loop_step. unfold time_of in Hleft.
    destruct (do_now C (world s)) as [w1 now]. cbn [snd] in Hleft.
    destruct (Z.ltb_spec now endTime); [lia | eauto].
  - rewrite jump_loop_step.
    pose proof (Hnow (world s)) as Hn. unfold time_of in Hleft, Hn at 1.
    destruct (do_now C (world s)) as [w1 now]. cbn [fst snd] in Hleft, Hn.
    destruct (now <? endTime); [|eauto].
    destruct (get_interrupt_code C w1); [eauto|]. cbn zeta.
    match goal with
    | |- context [jump_loop B C (S fuel) endTime ?s1] =>
        destruct (IH endTime s1) as (s' & t & E)
    end.
    + cbn [world].
      pose proof (Hset w1 "jump" true) as H1.
      pose proof (Hwait (do_setControlState C w1 "jump" true) 100) as H2.
      pose proof (Hset (do_wait B (do_setControlState C w1 "jump" true) 100)
                       "jump" false) as H3.
      pose proof (Hwait (do_setControlState C
                           (do_wait B (do_setControlState C w1 "jump" true) 100)
                           "jump" false) 100) as H4.
      lia.
    + rewrite E. eauto.
Qed.

(** X10.  jumpForDuration comes to an end when the clock advances:
    each turn of its loop waits twice 100, so after more than
    [duration / 200] turns the end time has passed.  Given that many
    iterations it returns [true]. *)
Theorem jumpForDuration_terminates fuel duration (s : Bot W) :
  clock_advances B C ->
  duration <= 200 * Z.of_nat fuel ->
  sresult_of (jumpForDuration B C (S fuel) duration s) = Normal (Some (VBool true)).
Proof.
  intros Hclock Hd. rewrite jumpForDuration_run.
  pose proof (proj1 Hclock (world s)) as Hn. unfold time_of in Hn at 1.
  destruct (do_now C (world s)) as [w1 now]. cbn [fst snd] in Hn. cbn zeta.
  destruct (jump_loop_finishes Hclock fuel (now + duration) (mkBot w1 (origin s)))
    as (s' & t & E); [cbn [world]; lia|].
  rewrite E. reflexivity.
Qed.

(** X11.  With [bot.interrupt_code] set, jumpForDuration does not jump:
    it leaves its loop at the first turn, releases the jump key once and
    returns [true], whatever the duration. *)
Theorem jumpForDuration_interrupted fuel duration (s : Bot W) :
  (forall w, get_interrupt_code C w = true) ->
  let run := jumpForDuration B C (S fuel) duration s in
  sresult_of run = Normal (Some (VBool true))
  /\ control_calls (sevents_of run) = [("jump", false)]
  /\ helper_events (sevents_of run) = [].
Proof.
  intros Hint. cbn zeta. rewrite jumpForDuration_run.
  destruct (do_now C (world s)) as [w1 now]. cbn zeta.
  rewrite jump_loop_step. cbn [world origin].
  destruct (do_now C w1) as [w2 now2].
  destruct (now2 <? now + duration); [rewrite Hint|]; repeat split.
Qed.

End Jumping.

(** In the simulated world the clock is the time waited: 26 iterations
    are enough for the 5000 of the scripts. *)
Lemma jumpForDuration_terminates_witness :
  clock_advances Sim.bridge (sim_controls false)
  /\ 5000 <= 200 * Z.of_nat 25
  /\ sresult_of (jumpForDuration Sim.bridge (sim_controls false) 26 5000 Sim.fresh)
     = Normal (Some (VBool true)).
Proof.
  assert (Hclock : clock_advances Sim.bridge (sim_controls false)).
  { repeat split; intros; unfold time_of; cbn; lia. }
  split; [exact Hclock|]. split; [lia|].
  apply (jumpForDuration_terminates Sim.bridge (sim_controls false) 25 5000 Sim.fresh
           Hclock).
  lia.
Defined.

Lemma jumpForDuration_interrupted_witness :
  control_calls
    (sevents_of (jumpForDuration Sim.bridge (sim_controls true) 26 5000 Sim.fresh))
  = [("jump", false)].
Proof.
  apply (jumpForDuration_interrupted Sim.bridge (sim_controls true) 25 5000 Sim.fresh).
  intros w. reflexivity.
Defined.

Section ScriptItems.

Lemma uses_of_unused itemName steps :
  ~ In itemName (items_of steps) -> uses itemName steps = 0.
Proof.
  unfold items_of. induction steps as [|st rest IH]; intros Hn; [reflexivity|].
  cbn [uses flat_map] in *.
  rewrite IH by (intros Hin; apply Hn, in_or_app; right; exact Hin).
  assert (Hst : ~ In itemName (step_items st))
    by (intros Hin; apply Hn, in_or_app; left; exact Hin).
  destruct st as [i c d f| | | |c|]; cbn [step_uses step_items In] in *; try reflexivity.
  - destruct (String.eqb_spec i itemName); [tauto | reflexivity].
  - destruct (String.eqb_spec "water_bucket" itemName); [tauto | reflexivity].
Qed.

Lemma required_of_unlisted itemName table :
  ~ In itemName (map fst table) -> required table itemName = 0.
Proof.
  induction table as [|[n k] rest IH]; intros Hn; [reflexivity|].
  cbn [required map fst In] in *.
  destruct (String.eqb_spec n itemName); [tauto|].
  apply IH. tauto.
Qed.

(** A comparison of uses and requirements that holds on every name a
    script or its table mentions holds on every name. *)
Lemma uses_compared (R : Z -> Z -> bool) steps table :
  R 0 0 = true ->
  forallb (fun n => R (uses n steps) (required table n))
          (items_of steps ++ map fst table) = true ->
  forall itemName, R (uses itemName steps) (required table itemName) = true.
Proof.
  intros H0 Hall itemName.
  destruct (in_dec string_dec itemName (items_of steps ++ map fst table)) as [Hin|Hout].
  - rewrite forallb_forall in Hall. apply Hall, Hin.
  - rewrite uses_of_unused, required_of_unlisted; [exact H0| |];
      intros Hin; apply Hout, in_or_app; tauto.
Qed.

(** X12.  The provisioner asks for what the build takes: for every item
    name, the number of times a script takes the item in hand - one per
    placeOnBlock of it, one water bucket per pourWaterInHole - is at most
    the amount the file's required-item table lists, so no script places
    an item its table does not list.  For rail.js the two numbers are
    equal for every item. *)
Theorem scripts_use_what_is_required itemName :
  uses itemName cane_steps <= required cane_requiredItems itemName
  /\ uses itemName rail_steps = required rail_requiredItems itemName.
Proof.
  split.
  - apply Z.leb_le. revert itemName. apply uses_compared; [reflexivity|].
    vm_compute. reflexivity.
  - apply Z.eqb_eq. revert itemName. apply uses_compared; [reflexivity|].
    vm_compute. reflexivity.
Qed.

End ScriptItems.

Section ScriptRuns.

Context {W : Type} (B : Bridge W) (C : Controls W).

Lemma lift_run {A} (m : M W A) (s : Bot W) :
  lift m s = (result_of (m s), bot_of (m s), map OfHelper (events_of (m s))).
Proof. unfold lift. destruct (m s) as [[r s1] t1]. reflexivity. Qed.

Lemma sbind_normal {A D} (m : Script W A) (f : A -> Script W D) s a s1 t1 :
  m s = (Normal a, s1, t1) ->
  sbind m f s = (sresult_of (f a s1), sbot_of (f a s1), t1 ++ sevents_of (f a s1)).
Proof.
  intros H. unfold sbind. rewrite H. destruct (f a s1) as [[r s2] t2]. reflexivity.
Qed.

Lemma sbind_abrupt {A D} (m : Script W A) (f : A -> Script W D) s e s1 t1 :
  m s = (Abrupt e, s1, t1) -> sbind m f s = (Abrupt e, s1, t1).
Proof. intros H. unfold sbind. rewrite H. reflexivity. Qed.

Lemma srun_eta {A} (r : Completion A * Bot W * list ScriptEvent) :
  r = (sresult_of r, sbot_of r, sevents_of r).
Proof. destruct r as [[c s] t]. reflexivity. Qed.

Lemma toggleBlock_queries blockType x y z (s : Bot W) :
  blockAt_queries (events_of (toggleBlock B blockType x y z s))
  = [Vec3.floored (resolve (frame B s) (x, y, z))].
Proof.
  destruct (origin_notice_silent B LOriginNotSet s) as (Nq & _).
  rewrite toggleBlock_run. cbn zeta.
  destruct (get_blockAt B (world s) _) as [b|];
    [destruct (String.eqb (block_name b) blockType);
     [destruct (do_activateBlock B (world s) b) as [w' r]|]|];
    unfold events_of; cbn [snd];
    repeat (rewrite blockAt_queries_app || rewrite blockAt_queries_log);
    rewrite Nq; reflexivity.
Qed.

Lemma pourWaterInHole_queries dx dy dz (s : Bot W) :
  blockAt_queries (events_of (pourWaterInHole B dx dy dz s)) = [].
Proof.
  destruct (origin_notice_silent B LOriginNotSet s) as (Nq & _).
  rewrite pourWaterInHole_run. cbn zeta.
  destruct (get_findInventoryItem B (world s) "water_bucket") as [it|];
    [destruct (do_equip B (world s) it "hand") as [w1 [e|]];
     [|destruct (do_activateItem B _) as [w3 [e|]]]|];
    unfold events_of; cbn [snd];
    repeat (rewrite blockAt_queries_app || rewrite blockAt_queries_log);
    rewrite Nq; reflexivity.
Qed.

Lemma walkTo_queries dx dy dz (s : Bot W) :
  blockAt_queries (events_of (walkTo B dx dy dz s)) = [].
Proof.
  destruct (origin_notice_silent B LOriginNotSet s) as (Nq & _).
  rewrite walkTo_run. cbn zeta.
  destruct (do_goToPosition B (world s) _ _ _) as [w' r].
  unfold events_of. cbn [snd]. rewrite blockAt_queries_app, Nq. reflexivity.
Qed.

Lemma rail_place_shape : place_shape B (rail_place B).
Proof.
  intros itemName c dir fd s. unfold rail_place.
  destruct (rail_placeOnBlock_summary B itemName c dir fd s)
    as (b & w' & t & E & Q & _). eauto.
Qed.

Lemma cane_place_shape : place_shape B (cane_place B).
Proof.
  intros itemName c dir fd s. unfold cane_place. rewrite cane_placeOnBlock_rail.
  destruct (rail_placeOnBlock_summary B itemName c dir None s)
    as (b & w' & t & E & Q & _). eauto.
Qed.

(** One scripted call, when navigation does not throw. *)
Lemma run_step_shape place st (w : W) (o : Origin) :
  place_shape B place ->
  (forall w gx gy gz, exists b, snd (do_goToPosition B w gx gy gz) = inr b) ->
  exists v w' t,
    run_step B C place st (mkBot w (Some o)) = (Normal v, mkBot w' (Some o), t)
    /\ blockAt_queries (helper_events t) = step_cells o st.
Proof.
  intros Hplace Hnav.
  destruct st as [itemName c d fd | [[dx dy] dz] | l | blockType [[x y] z]
                 | [[dx dy] dz] | control state]; cbn [run_step step_cells].
  - rewrite lift_run.
    destruct (Hplace itemName c
                (match d with Some d0 => d0 | None => default_directionVec end) fd
                (mkBot w (Some o))) as (b & w' & t & E & Q).
    rewrite E. cbn [result_of bot_of events_of fst snd frame origin].
    eexists _, _, _. split; [reflexivity|]. rewrite helper_events_lift. exact Q.
  - rewrite lift_run.
    pose proof (walkTo_queries dx dy dz (mkBot w (Some o))) as Q.
    rewrite walkTo_run in *. cbn zeta in *. cbn [world] in *.
    destruct (Hnav w (Vec3.x (resolve o (dx, dy, dz))) (Vec3.y (resolve o (dx, dy, dz)))
                (Vec3.z (resolve o (dx, dy, dz)))) as [b Hb].
    cbn [frame origin] in *.
    destruct (do_goToPosition B w _ _ _) as [w' r]. cbn [snd] in Hb. subst r.
    cbn [result_of bot_of events_of fst snd] in *.
    eexists _, _, _. split; [reflexivity|]. rewrite helper_events_lift. exact Q.
  - rewrite lift_run.
    pose proof (dig_queries B l (mkBot w (Some o))) as Q.
    rewrite dig_run in *. cbn zeta in *. cbn [world frame origin] in *.
    destruct (dig_loop_shape B (position o) l (mkBot w (Some o)))
      as (w' & t & E & _).
    rewrite E in *. cbn [result_of bot_of events_of fst snd origin] in *.
    eexists _, _, _. split; [reflexivity|]. rewrite helper_events_lift. exact Q.
  - rewrite lift_run.
    pose proof (toggleBlock_queries blockType x y z (mkBot w (Some o))) as Q.
    rewrite toggleBlock_run in *. cbn zeta in *. cbn [world frame origin] in *.
    destruct (get_blockAt B w _) as [b|];
      [destruct (String.eqb (block_name b) blockType);
       [destruct (do_activateBlock B w b) as [w' r]|]|];
      cbn [result_of bot_of events_of fst snd] in *;
      (eexists _, _, _; split; [reflexivity|]; rewrite helper_events_lift; exact Q).
  - rewrite lift_run.
    pose proof (pourWaterInHole_queries dx dy dz (mkBot w (Some o))) as Q.
    rewrite pourWaterInHole_run in *. cbn zeta in *. cbn [world frame origin] in *.
    destruct (get_findInventoryItem B w "water_bucket") as [it|];
      [destruct (do_equip B w it "hand") as [w1 [e|]];
       [|destruct (do_activateItem B _) as [w3 [e|]]]|];
      cbn [result_of bot_of events_of fst snd] in *;
      (eexists _, _, _; split; [reflexivity|]; rewrite helper_events_lift; exact Q).
  - eexists _, _, _. split; reflexivity.
Qed.

Lemma run_steps_shape place steps (o : Origin) :
  place_shape B place ->
  (forall w gx gy gz, exists b, snd (do_goToPosition B w gx gy gz) = inr b) ->
  forall (w : W),
  exists w' t,
    run_steps B C place steps (mkBot w (Some o)) = (Normal tt, mkBot w' (Some o), t)
    /\ blockAt_queries (helper_events t) = flat_map (step_cells o) steps.
Proof.
  intros Hplace Hnav. induction steps as [|st rest IH]; intros w.
  - exists w, []. split; reflexivity.
  - destruct (run_step_shape place st w o Hplace Hnav) as (v & w1 & t1 & E1 & Q1).
    destruct (IH w1) as (w2 & t2 & E2 & Q2).
    cbn [run_steps flat_map]. unfold sbind. rewrite E1, E2.
    eexists _, _. split; [reflexivity|].
    rewrite helper_events_app, blockAt_queries_app, Q1, Q2. reflexivity.
Qed.

(** X13.  When navigation does not throw, the scripted calls of a build
    all run, whatever the other helpers meet, and the cells they look up
    are those of the script resolved against the one origin frame: the
    resolved coordinate of each placeOnBlock, the floored cells of each
    dig list and of each toggleBlock, in script order.  The frame is
    still the same at the end. *)
Theorem scripted_calls_look_up_the_blueprint steps (w : W) (o : Origin) :
  navigation_never_throws B C ->
  let cane := run_steps B C (cane_place B) steps (mkBot w (Some o)) in
  let rail := run_steps B C (rail_place B) steps (mkBot w (Some o)) in
  (sresult_of cane = Normal tt
   /\ origin (sbot_of cane) = Some o
   /\ blockAt_queries (helper_events (sevents_of cane)) = flat_map (step_cells o) steps)
  /\ (sresult_of rail = Normal tt
      /\ origin (sbot_of rail) = Some o
      /\ blockAt_queries (helper_events (sevents_of rail))
         = flat_map (step_cells o) steps).
Proof.
  intros [Hnav _]. cbn zeta.
  destruct (run_steps_shape (cane_place B) steps o cane_place_shape Hnav w)
    as (w1 & t1 & E1 & Q1).
  destruct (run_steps_shape (rail_place B) steps o rail_place_shape Hnav w)
    as (w2 & t2 & E2 & Q2).
  rewrite E1, E2. repeat split; assumption.
Qed.

(** The calls before a point of a script, when they complete. *)
Lemma run_steps_app place before after : forall (s : Bot W),
  sresult_of (run_steps B C place before s) = Normal tt ->
  run_steps B C place (before ++ after) s
  = (sresult_of (run_steps B C place after (sbot_of (run_steps B C place before s))),
     sbot_of (run_steps B C place after (sbot_of (run_steps B C place before s))),
     sevents_of (run_steps B C place before s)
     ++ sevents_of (run_steps B C place after (sbot_of (run_steps B C place before s)))).
Proof.
  induction before as [|st rest IH]; intros s Hn.
  - cbn. apply srun_eta.
  - cbn [app run_steps] in *. unfold sbind in *.
    destruct (run_step B C place st s) as [[[v|e] s1] t1]; [|discriminate Hn].
    specialize (IH s1).
    destruct (run_steps B C place rest s1) as [[r2 s2] t2] eqn:E2.
    cbn [sresult_of sbot_of sevents_of fst snd] in *. subst r2.
    rewrite IH by reflexivity.
    destruct (run_steps B C place after s2) as [[r3 s3] t3].
    cbn. rewrite app_assoc. reflexivity.
Qed.

(** X14.  A build is ended by a navigation error: when the
    [goToPosition] call of a scripted walkTo throws, the script
    completes with that error, and none of the calls after the walkTo is
    made. *)
Theorem navigation_error_ends_the_script place before dx dy dz after (s : Bot W) e :
  let head := run_steps B C place before s in
  let s1 := sbot_of head in
  let target := resolve (frame B s1) (dx, dy, dz) in
  sresult_of head = Normal tt ->
  snd (do_goToPosition B (world s1) (Vec3.x target) (Vec3.y target) (Vec3.z target))
  = inl e ->
  let run := run_steps B C place (before ++ SWalkTo (dx, dy, dz) :: after) s in
  sresult_of run = Abrupt e
  /\ sevents_of run = sevents_of head ++ map OfHelper (events_of (walkTo B dx dy dz s1)).
Proof.
  cbn zeta. intros Hhead Hnav.
  rewrite run_steps_app by exact Hhead.
  cbn [run_steps run_step]. unfold sbind. rewrite lift_run, walkTo_run. cbn zeta.
  destruct (do_goToPosition B _ _ _ _) as [w' r]. cbn [snd] in Hnav. subst r.
  split; reflexivity.
Qed.

End ScriptRuns.

(** The simulated world never fails to navigate. *)
Lemma scripted_calls_look_up_the_blueprint_witness :
  navigation_never_throws Sim.bridge (sim_controls false)
  /\ sresult_of (run_steps Sim.bridge (sim_controls false) (rail_place Sim.bridge)
                   rail_steps Sim.ready) = Normal tt.
Proof.
  assert (Hnav : navigation_never_throws Sim.bridge (sim_controls false)).
  { split; intros; exists true; reflexivity. }
  split; [exact Hnav|].
  apply (scripted_calls_look_up_the_blueprint Sim.bridge (sim_controls false)
           rail_steps Sim.start Sim.start_origin Hnav).
Defined.

(** With no path to the first walkTo of cane.js (line 246), the script
    ends there, after the chest. *)
Lemma navigation_error_ends_the_script_witness :
  sresult_of (run_steps lost_bridge (sim_controls false) (cane_place lost_bridge)
                cane_steps Sim.ready)
  = Abrupt (mkError (Some "No path to the goal!")).
Proof.
  apply (navigation_error_ends_the_script lost_bridge (sim_controls false)
           (cane_place lost_bridge) (firstn 1 cane_steps) (num 0) (num 0) (num 8)
           (skipn 2 cane_steps) Sim.ready (mkError (Some "No path to the goal!")));
    reflexivity.
Defined.

Section Machines.

Context {W : Type} (B : Bridge W) (C : Controls W).

Lemma setOrigin_run (s : Bot W) :
  setOrigin B s
  = (Normal (VBool true), mkBot (world s) (Some (frame B (mkBot (world s) None))),
     [Log (LOriginSet (position (frame B (mkBot (world s) None)))
                      (yaw (frame B (mkBot (world s) None))))]).
Proof. reflexivity. Qed.

Lemma walkNorth_run steps (s : Bot W) :
  walkNorth B C steps s
  = let p := get_entity_position B (world s) in
    let nav := do_goToPositionNear C (world s) (Vec3.x p) (Vec3.y p)
                 (Vec3.z p - steps)%Qc (num 1) in
    (match snd nav with inr b => Normal (VBool b) | inl e => Abrupt e end,
     mkBot (fst nav) (origin s),
     [ScriptLog (LWalkingNorth steps);
      CallGoToPositionNear (Vec3.x p) (Vec3.y p) (Vec3.z p - steps)%Qc (num 1)
        (snd nav)]).
Proof.
  unfold walkNorth, sbind, lift, entity_position, script_log, goToPositionNear.
  cbn [world origin map app].
  destruct (do_goToPositionNear C (world s) _ _ _ _) as [w' [e|b]]; reflexivity.
Qed.

Lemma acquire_loop_queries items : forall (s : Bot W),
  blockAt_queries (events_of (acquire_loop B items s)) = [].
Proof.
  unfold acquire_loop. induction items as [|[n k] rest IH]; intros s; [reflexivity|].
  cbn [for_each fst snd]. unfold bind. rewrite acquire_item_run. cbn zeta.
  destruct (_ <? _);
    match goal with
    | |- context [for_each ?f rest ?s1] =>
        specialize (IH s1); destruct (for_each f rest s1) as [[r2 s2] t2]
    end;
    unfold events_of in *; cbn [snd] in *; exact IH.
Qed.

Lemma jumpForDuration_summary fuel duration (s : Bot W) :
  clock_advances B C ->
  duration <= 200 * Z.of_nat fuel ->
  exists w' t,
    jumpForDuration B C (S fuel) duration s
    = (Normal (Some (VBool true)), mkBot w' (origin s), t)
    /\ blockAt_queries (helper_events t) = [].
Proof.
  intros Hclock Hd. rewrite jumpForDuration_run.
  pose proof (proj1 Hclock (world s)) as Hn. unfold time_of in Hn at 1.
  destruct (do_now C (world s)) as [w1 now]. cbn [fst snd] in Hn. cbn zeta.
  destruct (jump_loop_finishes B C Hclock fuel (now + duration) (mkBot w1 (origin s)))
    as (s' & t & E); [cbn [world]; lia|].
  destruct (jump_loop_shape B C (S fuel) (now + duration) (mkBot w1 (origin s)))
    as (presses & finished & w' & t' & E' & _ & _ & Q).
  rewrite E in E'. injection E' as _ -> ->.
  rewrite E. cbn [sresult_of sbot_of sevents_of fst snd world origin].
  eexists _, _. split; [reflexivity|].
  rewrite !helper_events_app, !blockAt_queries_app, Q. reflexivity.
Qed.

(** The part of a script after the jump, when navigation does not throw. *)
Lemma build_summary table place steps (s : Bot W) :
  place_shape B place ->
  navigation_never_throws B C ->
  exists o w' t,
    build B C (acquireItems B table) place steps s
    = (Normal VUndefined, mkBot w' (Some o), t)
    /\ blockAt_queries (helper_events t) = flat_map (step_cells o) steps.
Proof.
  intros Hplace [Hnav Hnear].
  unfold build, sbind at 1. rewrite walkNorth_run. cbn zeta.
  set (p := get_entity_position B (world s)).
  destruct (Hnear (world s) (Vec3.x p) (Vec3.y p) (Vec3.z p - num 10)%Qc (num 1))
    as [b Hb].
  destruct (do_goToPositionNear C (world s) _ _ _ _) as [w1 r].
  cbn [fst snd] in *. subst r.
  unfold sbind at 1. rewrite lift_run, acquireItems_run.
  pose proof (acquire_loop_queries table (mkBot w1 (origin s))) as Qa.
  destruct (acquire_loop_keeps_origin B table (mkBot w1 (origin s)))
    as (w2 & t2 & Ea).
  rewrite Ea in *. cbn [result_of bot_of events_of fst snd origin] in *.
  unfold sbind at 1. rewrite lift_run, setOrigin_run.
  cbn [result_of bot_of events_of fst snd world].
  set (o := frame B (mkBot w2 None)).
  destruct (run_steps_shape B C place steps o Hplace Hnav w2) as (w3 & t3 & Es & Qs).
  unfold sbind. rewrite Es. cbn [sret].
  exists o, w3. eexists. split; [reflexivity|].
  rewrite !helper_events_app, !blockAt_queries_app, Qs.
  change (Log LChecking :: t2 ++ [Log LFinishedAcquiring])
    with ([Log LChecking] ++ t2 ++ [Log LFinishedAcquiring]).
  rewrite !helper_events_lift, !blockAt_queries_app, Qa.
  cbn. rewrite app_nil_r. reflexivity.
Qed.

(** X15.  With a clock that advances, a navigation that does not throw
    and 26 iterations or more for the jump, makeCaneMachine and
    makeRailMachine run to their end and return nothing, whatever fails
    on the way; every cell they look up is a cell of their script,
    resolved against the one frame [setOrigin] captured. *)
Theorem machines_run_to_the_end fuel (s : Bot W) :
  clock_advances B C ->
  navigation_never_throws B C ->
  5000 <= 200 * Z.of_nat fuel ->
  (exists o,
      let run := makeCaneMachine B C (S fuel) s in
      sresult_of run = Normal (Some VUndefined)
      /\ origin (sbot_of run) = Some o
      /\ blockAt_queries (helper_events (sevents_of run))
         = flat_map (step_cells o) cane_steps)
  /\ (exists o,
         let run := makeRailMachine B C (S fuel) s in
         sresult_of run = Normal (Some VUndefined)
         /\ origin (sbot_of run) = Some o
         /\ blockAt_queries (helper_events (sevents_of run))
            = flat_map (step_cells o) rail_steps).
Proof.
  intros Hclock Hnav Hfuel.
  destruct (jumpForDuration_summary fuel 5000 s Hclock Hfuel) as (w1 & t1 & Ej & Qj).
  split.
  - destruct (build_summary cane_requiredItems (cane_place B) cane_steps
                (mkBot w1 (origin s)) (cane_place_shape B) Hnav)
      as (o & w2 & t2 & Eb & Qb).
    exists o. cbn zeta. unfold makeCaneMachine, sbind, cane_acquireItems.
    rewrite Ej, Eb. cbn [sresult_of sbot_of sevents_of fst snd origin sret].
    repeat split.
    rewrite !helper_events_app, !blockAt_queries_app, Qj, Qb. rewrite app_nil_r.
    reflexivity.
  - destruct (build_summary rail_requiredItems (rail_place B) rail_steps
                (mkBot w1 (origin s)) (rail_place_shape B) Hnav)
      as (o & w2 & t2 & Eb & Qb).
    exists o. cbn zeta. unfold makeRailMachine, sbind, rail_acquireItems.
    rewrite Ej, Eb. cbn [sresult_of sbot_of sevents_of fst snd origin sret].
    repeat split.
    rewrite !helper_events_app, !blockAt_queries_app, Qj, Qb. rewrite app_nil_r.
    reflexivity.
Qed.

End Machines.

(** Both machines in the simulated world. *)
Lemma machines_run_to_the_end_witness :
  sresult_of (makeCaneMachine Sim.bridge (sim_controls false) 26 Sim.fresh)
  = Normal (Some VUndefined)
  /\ sresult_of (makeRailMachine Sim.bridge (sim_controls false) 26 Sim.fresh)
     = Normal (Some VUndefined).
Proof.
  assert (Hclock : clock_advances Sim.bridge (sim_controls false)).
  { repeat split; intros; unfold time_of; cbn; lia. }
  assert (Hnav : navigation_never_throws Sim.bridge (sim_controls false)).
  { split; intros; exists true; reflexivity. }
  assert (Hfuel : 5000 <= 200 * Z.of_nat 25) by lia.
  destruct (machines_run_to_the_end Sim.bridge (sim_controls false) 25 Sim.fresh
              Hclock Hnav Hfuel) as [[o1 H1] [o2 H2]].
  split; [exact (proj1 H1) | exact (proj1 H2)].
Defined.

Section StaleOrigin.

Context {W : Type} (B : Bridge W) (C : Controls W).

Lemma origin_blind_sret {A} (a : A) : origin_blind (@sret W A a).
Proof. intros w o1 o2. exists (Normal a), w, []. split; reflexivity. Qed.

Lemma origin_blind_sbind {A D} (m : Script W A) (f : A -> Script W D) :
  origin_blind m -> (forall a, origin_blind (f a)) -> origin_blind (sbind m f).
Proof.
  intros Hm Hf w o1 o2.
  destruct (Hm w o1 o2) as (r & w1 & t1 & E1 & E2).
  unfold sbind. rewrite E1, E2. destruct r as [a|e]; [|eauto].
  destruct (Hf a w1 o1 o2) as (r' & w2 & t2 & F1 & F2).
  rewrite F1, F2. eauto.
Qed.

(** A step that does not look at [bot.origin] and hands it on. *)
Lemma origin_blind_step {A} (m : Script W A)
      (f : W -> Completion A * W * list ScriptEvent) :
  (forall w o, m (mkBot w o) = (fst (fst (f w)), mkBot (snd (fst (f w))) o, snd (f w))) ->
  origin_blind m.
Proof. intros Hm w o1 o2. rewrite !Hm. eauto. Qed.

Lemma origin_blind_script_log m : origin_blind (@script_log W m).
Proof.
  apply (origin_blind_step _ (fun w => (Normal tt, w, [ScriptLog m]))). reflexivity.
Qed.

Lemma origin_blind_date_now : origin_blind (date_now C).
Proof.
  apply (origin_blind_step _ (fun w => (Normal (snd (do_now C w)), fst (do_now C w),
                                        [CallDateNow (snd (do_now C w))]))).
  intros w o. unfold date_now. cbn [world origin].
  destruct (do_now C w) as [w' t]. reflexivity.
Qed.

Lemma origin_blind_interrupt_code : origin_blind (interrupt_code C).
Proof.
  apply (origin_blind_step _ (fun w => (Normal (get_interrupt_code C w), w, []))).
  reflexivity.
Qed.

Lemma origin_blind_setControlState control state :
  origin_blind (bot_setControlState C control state).
Proof.
  apply (origin_blind_step _ (fun w => (Normal tt, do_setControlState C w control state,
                                        [CallSetControlState control state]))).
  reflexivity.
Qed.

Lemma origin_blind_wait ms : origin_blind (lift (wait B ms)).
Proof.
  apply (origin_blind_step _ (fun w => (Normal tt, do_wait B w ms,
                                        [OfHelper (CallWait ms)]))).
  reflexivity.
Qed.

Lemma origin_blind_jump_loop fuel endTime : origin_blind (jump_loop B C fuel endTime).
Proof.
  induction fuel as [|fuel IH]; cbn [jump_loop].
  - apply origin_blind_sret.
  - apply origin_blind_sbind; [apply origin_blind_date_now|]. intros now.
    destruct (now <? endTime); [|apply origin_blind_sret].
    apply origin_blind_sbind; [apply origin_blind_interrupt_code|]. intros [|].
    + apply origin_blind_sbind; [apply origin_blind_script_log|]. intros _.
      apply origin_blind_sret.
    + repeat (apply origin_blind_sbind;
              [first [apply origin_blind_setControlState | apply origin_blind_wait]|];
              intros _).
      exact IH.
Qed.

Lemma origin_blind_jumpForDuration fuel duration :
  origin_blind (jumpForDuration B C fuel duration).
Proof.
  unfold jumpForDuration.
  apply origin_blind_sbind; [apply origin_blind_script_log|]. intros _.
  apply origin_blind_sbind; [apply origin_blind_date_now|]. intros now.
  apply origin_blind_sbind; [apply origin_blind_jump_loop|]. intros [u|].
  - apply origin_blind_sbind; [apply origin_blind_setControlState|]. intros _.
    apply origin_blind_sbind; [apply origin_blind_script_log|]. intros _.
    apply origin_blind_sret.
  - apply origin_blind_sret.
Qed.

Lemma origin_blind_walkNorth steps : origin_blind (walkNorth B C steps).
Proof.
  intros w o1 o2. rewrite !walkNorth_run. cbn zeta. cbn [world origin]. eauto.
Qed.

Lemma acquire_loop_origin_blind items : forall (w : W) (o1 o2 : option Origin),
  exists w' t,
    acquire_loop B items (mkBot w o1) = (Normal tt, mkBot w' o1, t)
    /\ acquire_loop B items (mkBot w o2) = (Normal tt, mkBot w' o2, t).
Proof.
  unfold acquire_loop. induction items as [|[n k] rest IH]; intros w o1 o2.
  - exists w, []. split; reflexivity.
  - cbn [for_each fst snd]. unfold bind. rewrite !acquire_item_run. cbn zeta.
    cbn [world origin].
    destruct (_ <? _);
      match goal with
      | |- context [for_each ?f rest (mkBot ?w1 o1)] =>
          destruct (IH w1 o1 o2) as (w' & t & E1 & E2); rewrite E1, E2
      end; eauto.
Qed.

Lemma origin_blind_acquireItems items : origin_blind (lift (acquireItems B items)).
Proof.
  intros w o1 o2. rewrite !lift_run, !acquireItems_run.
  destruct (acquire_loop_origin_blind items w o1 o2) as (w' & t & E1 & E2).
  rewrite E1, E2. cbn [result_of bot_of events_of fst snd]. eauto.
Qed.

Lemma origin_free_of_blind_then_free {A D} (m : Script W A) (f : A -> Script W D) :
  origin_blind m -> (forall a, origin_free (f a)) -> origin_free (sbind m f).
Proof.
  intros Hm Hf w o1 o2.
  destruct (Hm w o1 o2) as (r & w1 & t1 & E1 & E2).
  unfold sbind. rewrite E1, E2. destruct r as [a|e]; [|repeat split].
  destruct (Hf a w1 o1 o2) as (Hr & He & Hw).
  destruct (f a (mkBot w1 o1)) as [[r1 s1] u1].
  destruct (f a (mkBot w1 o2)) as [[r2 s2] u2].
  cbn [sresult_of sbot_of sevents_of fst snd] in *. subst.
  repeat split. exact Hw.
Qed.

Lemma origin_free_then_sret {A D} (m : Script W A) (g : A -> D) :
  origin_free m -> origin_free (sbind m (fun v => sret (g v))).
Proof.
  intros Hm w o1 o2. destruct (Hm w o1 o2) as (Hr & He & Hw).
  unfold sbind, sret.
  destruct (m (mkBot w o1)) as [[r1 s1] u1].
  destruct (m (mkBot w o2)) as [[r2 s2] u2].
  cbn [sresult_of sbot_of sevents_of fst snd] in *. subst.
  destruct r2; repeat split; exact Hw.
Qed.

(** Once [setOrigin] ran, nothing depends on the origin there was. *)
Lemma origin_free_after_setOrigin {D} (k : Script W D) :
  origin_free (sbind (lift (setOrigin B)) (fun _ => k)).
Proof.
  intros w o1 o2. unfold sbind. rewrite !lift_run, !setOrigin_run.
  cbn [result_of bot_of events_of fst snd world]. repeat split.
Qed.

Lemma origin_free_build acquireTable place steps :
  origin_free (build B C (acquireItems B acquireTable) place steps).
Proof.
  unfold build.
  apply origin_free_of_blind_then_free; [apply origin_blind_walkNorth|]. intros _.
  apply origin_free_of_blind_then_free; [apply origin_blind_acquireItems|]. intros _.
  apply origin_free_after_setOrigin.
Qed.

(** X16.  A build does not depend on an origin frame left by an earlier
    one: started from the same environment with any [bot.origin], or
    none, makeCaneMachine and makeRailMachine complete the same way,
    make the same calls and leave the same environment.  Nothing before
    their [setOrigin] reads the frame, and [setOrigin] replaces it. *)
Theorem machines_ignore_a_stale_origin fuel (w : W) (o1 o2 : option Origin) :
  same_script_run (makeCaneMachine B C fuel (mkBot w o1))
                  (makeCaneMachine B C fuel (mkBot w o2))
  /\ same_script_run (makeRailMachine B C fuel (mkBot w o1))
                     (makeRailMachine B C fuel (mkBot w o2)).
Proof.
  split.
  - apply (origin_free_of_blind_then_free (jumpForDuration B C fuel 5000));
      [apply origin_blind_jumpForDuration|].
    intros [v|].
    + apply (origin_free_then_sret _ (@Some value)). apply origin_free_build.
    + intros w' o o'. repeat split.
  - apply (origin_free_of_blind_then_free (jumpForDuration B C fuel 5000));
      [apply origin_blind_jumpForDuration|].
    intros [v|].
    + apply (origin_free_then_sret _ (@Some value)). apply origin_free_build.
    + intros w' o o'. repeat split.
Qed.

(** X17.  walkNorth walks from where the bot stands, to the point
    [steps] further along decreasing z at the same x and y, asking to
    get within distance 1; it neither reads nor sets the origin frame
    and, like walkTo, completes as its navigation call does.  North is
    the forward of the offsets: standing on the origin, it goes where
    walkTo [(0, 0, steps)] goes. *)
Theorem walkNorth_goes_forward steps (s : Bot W) :
  let p := get_entity_position B (world s) in
  let nav := do_goToPositionNear C (world s) (Vec3.x p) (Vec3.y p)
               (Vec3.z p - steps)%Qc (num 1) in
  let run := walkNorth B C steps s in
  sresult_of run = match snd nav with
                   | inr b => Normal (VBool b)
                   | inl e => Abrupt e
                   end
  /\ sbot_of run = mkBot (fst nav) (origin s)
  /\ last (sevents_of run) (ScriptLog LStoppedJumping)
     = CallGoToPositionNear (Vec3.x p) (Vec3.y p) (Vec3.z p - steps)%Qc (num 1) (snd nav)
  /\ (forall o, position o = p ->
        Vec3.mk (Vec3.x p) (Vec3.y p) (Vec3.z p - steps)%Qc
        = resolve o (num 0, num 0, steps)).
Proof.
  cbn zeta. rewrite walkNorth_run. cbn zeta.
  split; [reflexivity|]. split; [reflexivity|]. split; [reflexivity|].
  intros o Ho. unfold resolve. rewrite Ho, num_0.
  f_equal; symmetry; apply Qcplus_0_r.
Qed.

End StaleOrigin.
